(** * Neighbor joining: the Q-criterion search [nj_minq_cy]

    A shallow embedding of [skbio/tree/_c_nj.pyx].

    - Element type.  The Cython function is written once over the fused
      type [floating] (C [float] or C [double]); the embedding is written
      once over a class [Floating] and instantiated at IEEE binary32 and
      binary64 (the [spec_float] model of the standard library, every
      operation rounded to nearest even on its own, no contraction into a
      fused multiply-add) and, as an idealisation, at exact rational
      arithmetic extended with infinities.

    - Buffers.  The function reads two typed memoryviews with
      [boundscheck=False] and never validates a shape.  Reads are modelled
      in a small state monad over the contents of the two views.  The
      model describes the memory inside the shape of a view and nothing
      else: a read outside the shape is not checked by the compiled code,
      which goes on with whatever lies at the address and still returns;
      the model does not follow such a run and gives it the outcome
      [OutOfBounds].  That outcome says that the run has left the views,
      never that the call stops or fails.

    - Locals.  [min_i] and [min_j] are declared without an initial value
      and returned unconditionally; what they hold before the first
      assignment is an explicit argument of the model.

    - Signature.  Both arguments are declared with the one fused type
      [floating]; accordingly the body is typed over one element type [F]
      for both views.  The argument binding that Cython generates from
      the signature is not part of the source file and is not modelled. *)

From Stdlib Require Import List ZArith QArith Bool Lia Lqa.
From Stdlib Require Import SpecFloat.
Import ListNotations.

Close Scope Q_scope.
Set Implicit Arguments.

(** ** The element type of the memoryviews *)

(** The operations the body of [nj_minq_cy] applies to values of the fused
    type [floating]. *)
Class Floating (F : Type) : Type := {
  (** [<floating>INFINITY] *)
  F_INFINITY : F;
  (** [n - 2.0]: computed in double precision from the [Py_ssize_t] [n] and
      converted to [floating] by the assignment to [n_2] *)
  F_n_minus_2 : nat -> F;
  F_add : F -> F -> F;
  F_sub : F -> F -> F;
  F_mul : F -> F -> F;
  (** the C comparison [<] *)
  F_lt : F -> F -> bool
}.

(** *** IEEE 754 instances *)

Module IEEE.

Definition prec32 : Z := 24.
Definition emax32 : Z := 128.
Definition prec64 : Z := 53.
Definition emax64 : Z := 1024.

(** The double [m * 2^e], rounded to nearest even. *)
Definition b64 (m e : Z) : spec_float := binary_normalize prec64 emax64 m e false.
Definition b32 (m e : Z) : spec_float := binary_normalize prec32 emax32 m e false.

(** Conversion of a [Py_ssize_t] to double, as the usual arithmetic
    conversions do for [n - 2.0]. *)
Definition double_of_ssize (n : Z) : spec_float := b64 n 0.

Definition n_minus_two (n : nat) : spec_float :=
  SFsub prec64 emax64 (double_of_ssize (Z.of_nat n)) (b64 2 0).

(** Conversion of a double to float (assignment to a [float] local). *)
Definition float_of_double (x : spec_float) : spec_float :=
  match x with
  | S754_finite s m e => binary_round prec32 emax32 s m e
  | _ => x
  end.

(** A value that is neither an infinity nor a NaN. *)
Definition is_finite (x : spec_float) : bool :=
  match x with
  | S754_zero _ | S754_finite _ _ _ => true
  | S754_infinity _ | S754_nan => false
  end.

End IEEE.

(** C [float]. *)
Record c_float : Type := Float { float_bits : spec_float }.
(** C [double]. *)
Record c_double : Type := Double { double_bits : spec_float }.

Definition lift32 (op : spec_float -> spec_float -> spec_float) (x y : c_float) : c_float :=
  Float (op (float_bits x) (float_bits y)).
Definition lift64 (op : spec_float -> spec_float -> spec_float) (x y : c_double) : c_double :=
  Double (op (double_bits x) (double_bits y)).

#[export] Instance Floating_float : Floating c_float := {
  F_INFINITY := Float (S754_infinity false);
  F_n_minus_2 n := Float (IEEE.float_of_double (IEEE.n_minus_two n));
  F_add := lift32 (SFadd IEEE.prec32 IEEE.emax32);
  F_sub := lift32 (SFsub IEEE.prec32 IEEE.emax32);
  F_mul := lift32 (SFmul IEEE.prec32 IEEE.emax32);
  F_lt x y := SFltb (float_bits x) (float_bits y)
}.

#[export] Instance Floating_double : Floating c_double := {
  F_INFINITY := Double (S754_infinity false);
  F_n_minus_2 n := Double (IEEE.n_minus_two n);
  F_add := lift64 (SFadd IEEE.prec64 IEEE.emax64);
  F_sub := lift64 (SFsub IEEE.prec64 IEEE.emax64);
  F_mul := lift64 (SFmul IEEE.prec64 IEEE.emax64);
  F_lt x y := SFltb (double_bits x) (double_bits y)
}.

(** *** Exact arithmetic

    The idealised element type: rationals with the two infinities and an
    undefined value, no rounding and no overflow.  Every finite binary32 or
    binary64 value is a rational, so every finite input of the real function
    is an input of this instance. *)
Inductive exact : Type :=
| Finite (q : Q)
| PlusInf
| MinusInf
| Undef.

Module Exact.

Definition Qltb (a b : Q) : bool := negb (Qle_bool b a).

Definition opp (x : exact) : exact :=
  match x with
  | Finite a => Finite (- a)
  | PlusInf => MinusInf
  | MinusInf => PlusInf
  | Undef => Undef
  end.

Definition add (x y : exact) : exact :=
  match x, y with
  | Undef, _ | _, Undef => Undef
  | Finite a, Finite b => Finite (a + b)
  | PlusInf, MinusInf | MinusInf, PlusInf => Undef
  | PlusInf, _ | _, PlusInf => PlusInf
  | MinusInf, _ | _, MinusInf => MinusInf
  end.

Definition sub (x y : exact) : exact := add x (opp y).

Definition scale_inf (positive_inf : bool) (a : Q) : exact :=
  if Qltb 0 a then (if positive_inf then PlusInf else MinusInf)
  else if Qltb a 0 then (if positive_inf then MinusInf else PlusInf)
  else Undef.

Definition mul (x y : exact) : exact :=
  match x, y with
  | Undef, _ | _, Undef => Undef
  | Finite a, Finite b => Finite (a * b)
  | PlusInf, Finite a | Finite a, PlusInf => scale_inf true a
  | MinusInf, Finite a | Finite a, MinusInf => scale_inf false a
  | PlusInf, PlusInf | MinusInf, MinusInf => PlusInf
  | PlusInf, MinusInf | MinusInf, PlusInf => MinusInf
  end.

Definition lt (x y : exact) : bool :=
  match x, y with
  | Undef, _ | _, Undef => false
  | Finite a, Finite b => Qltb a b
  | MinusInf, MinusInf | PlusInf, _ => false
  | MinusInf, _ => true
  | Finite _, PlusInf => true
  | Finite _, MinusInf => false
  end.

End Exact.

#[export] Instance Floating_exact : Floating exact := {
  F_INFINITY := PlusInf;
  F_n_minus_2 n := Finite (inject_Z (Z.of_nat n - 2));
  F_add := Exact.add;
  F_sub := Exact.sub;
  F_mul := Exact.mul;
  F_lt := Exact.lt
}.

(** ** The two memoryviews and the monad of reads *)

(** [dm] is the [floating[:, :]] argument, one list per row; [sums] is the
    [floating[:]] argument. *)
Record memviews (F : Type) : Type := MemViews {
  dm : list (list F);
  sums : list F
}.

(** What the model says of a run of the C body: it returns [a], having
    read inside the shapes of the views only, or it has read outside the
    shape of a view.  In the second case the compiled code reads whatever
    the address holds (the next row of a rectangular array, memory past
    the end of the buffer) and goes on to its [return]; the value it
    returns then depends on memory the model does not describe, and
    [OutOfBounds] stands for "not determined by the views". *)
Inductive outcome (A : Type) : Type :=
| Returns (a : A)
| OutOfBounds.
Arguments OutOfBounds {A}.

(** A computation that may read the buffers and hands them on. *)
Definition M (F A : Type) : Type := memviews F -> outcome (A * memviews F).

Definition ret {F A : Type} (a : A) : M F A := fun mv => Returns (a, mv).

Definition bind {F A B : Type} (c : M F A) (k : A -> M F B) : M F B :=
  fun mv =>
    match c mv with
    | Returns (a, mv') => k a mv'
    | OutOfBounds => OutOfBounds
    end.

Declare Scope nj_scope.
Delimit Scope nj_scope with nj.
Notation "x <- c ;; k" := (bind c (fun x => k))
  (at level 100, c at next level, right associativity) : nj_scope.
Open Scope nj_scope.

(** The value a run returns, without the final buffers. *)
Definition value_of {A B : Type} (o : outcome (A * B)) : outcome A :=
  match o with
  | Returns (a, _) => Returns a
  | OutOfBounds => OutOfBounds
  end.

(** The element at row [i], column [j], if there is one. *)
Definition entry {A : Type} (a : list (list A)) (i j : nat) : option A :=
  match nth_error a i with
  | Some row => nth_error row j
  | None => None
  end.

Section Kernel.

Context {F : Type} `{Floating F}.

(** [dm.shape[0]] *)
Definition shape0 : M F nat := fun mv => Returns (length (dm mv), mv).

(** [dm[i, j]], unchecked.  Inside the shape of [dm] the read yields the
    entry; outside it the run is no longer followed. *)
Definition load_dm (i j : nat) : M F F := fun mv =>
  match entry (dm mv) i j with
  | Some x => Returns (x, mv)
  | None => OutOfBounds
  end.

(** [sums[i]], unchecked.  Inside the shape of [sums] the read yields the
    entry; outside it the run is no longer followed. *)
Definition load_sums (i : nat) : M F F := fun mv =>
  match nth_error (sums mv) i with
  | Some x => Returns (x, mv)
  | None => OutOfBounds
  end.

(** [range(a, b)] *)
Definition range (a b : nat) : list nat := seq a (b - a).

(** [for k in l: st = body(st, k)] *)
Fixpoint for_each {S : Type} (l : list nat) (body : S -> nat -> M F S) (st : S) : M F S :=
  match l with
  | [] => ret st
  | k :: l' => st' <- body st k ;; for_each l' body st'
  end.

(** The locals that survive a row: the current minimum q value and its
    location. *)
Record minimum : Type := Minimum {
  min_q : F;
  min_i : Z;
  min_j : Z
}.

(** While a row is scanned the state is [min_q_plus], the minimum q value
    plus [sums[i]], together with the current minimum. *)
Definition min_q_plus (st : F * minimum) : F := fst st.

(** The body of the inner loop. *)
Definition inner_body (n_2 : F) (i : nat) (st : F * minimum) (j : nat) : M F (F * minimum) :=
  d <- load_dm i j ;;
  s_j <- load_sums j ;;
  let q_plus := F_sub (F_mul d n_2) s_j in
  if F_lt q_plus (min_q_plus st) then
    s_i <- load_sums i ;;
    ret (q_plus, {| min_q := F_sub q_plus s_i; min_i := Z.of_nat i; min_j := Z.of_nat j |})
  else ret st.

(** The body of the outer loop: [min_q_plus] is set afresh from [min_q]
    before the row is scanned. *)
Definition outer_body (n : nat) (n_2 : F) (m : minimum) (i : nat) : M F minimum :=
  s_i <- load_sums i ;;
  st <- for_each (range (i + 1) n) (inner_body n_2 i) (F_add (min_q m) s_i, m) ;;
  ret (snd st).

(** [nj_minq_cy(dm, sums)].  [unassigned] holds the indeterminate initial
    contents of the C locals [min_i] and [min_j]. *)
Definition nj_minq_cy (unassigned : Z * Z) : M F (Z * Z) :=
  n <- shape0 ;;
  let n_2 := F_n_minus_2 n in
  m <- for_each (range 0 n) (outer_body n n_2)
         {| min_q := F_INFINITY; min_i := fst unassigned; min_j := snd unassigned |} ;;
  ret (min_i m, min_j m).

End Kernel.

Arguments minimum : clear implicits.

(** ** The scan as a fold

    When every read of the two loops lands inside the buffers, the run is a
    fold over total accessors [d] for [dm[i, j]] and [s] for [sums[i]]. *)

Section Fold.

Context {F : Type} `{Floating F}.
Variable d : nat -> nat -> F.
Variable s : nat -> F.

Definition inner_fold (n_2 : F) (i : nat) (st : F * minimum F) (j : nat) : F * minimum F :=
  let q_plus := F_sub (F_mul (d i j) n_2) (s j) in
  if F_lt q_plus (min_q_plus st) then
    (q_plus, {| min_q := F_sub q_plus (s i); min_i := Z.of_nat i; min_j := Z.of_nat j |})
  else st.

Definition outer_fold (n : nat) (n_2 : F) (m : minimum F) (i : nat) : minimum F :=
  snd (fold_left (inner_fold n_2 i) (range (i + 1) n) (F_add (min_q m) (s i), m)).

Definition scan_fold (n : nat) (unassigned : Z * Z) : minimum F :=
  fold_left (outer_fold n (F_n_minus_2 n)) (range 0 n)
    {| min_q := F_INFINITY; min_i := fst unassigned; min_j := snd unassigned |}.

(** The buffers [mv] have [n] rows and answer every read of the scan
    with [d] and [s]. *)
Definition reads (mv : memviews F) (n : nat) : Prop :=
  length (dm mv) = n /\
  (forall i j, i < j < n -> load_dm i j mv = Returns (d i j, mv)) /\
  (forall i, i < n -> load_sums i mv = Returns (s i, mv)).

(** The locals hold a pair the loops have visited. *)
Definition assigned (n : nat) (m : minimum F) : Prop :=
  exists i j, i < j < n /\ min_i m = Z.of_nat i /\ min_j m = Z.of_nat j.

End Fold.

(** A computation that hands the buffers on as it found them. *)
Definition read_only {F A : Type} (c : M F A) : Prop :=
  forall mv a mv', c mv = Returns (a, mv') -> mv' = mv.

(** Two runs, one of [c1] on [mv1] and one of [c2] on [mv2], that both
    leave the views or both return, with values related by [R] and the
    buffers as they were. *)
Definition rel_run {F A : Type} (R : A -> A -> Prop) (mv1 mv2 : memviews F)
    (c1 c2 : M F A) : Prop :=
  match c1 mv1, c2 mv2 with
  | Returns (a1, mv1'), Returns (a2, mv2') => R a1 a2 /\ mv1' = mv1 /\ mv2' = mv2
  | OutOfBounds, OutOfBounds => True
  | _, _ => False
  end.

(** What the element types have in common at the values the scan meets
    when only two nodes are left: [n - 2.0] is a zero, a finite value
    times a zero is a zero, a zero minus a finite value is finite, and
    [INFINITY] absorbs and exceeds every finite value. *)
Class FloatingLaws (F : Type) `{Floating F} (finite zero : F -> Prop) : Prop := {
  n_minus_2_of_2 : zero (F_n_minus_2 2);
  mul_zero : forall x z, finite x -> zero z -> zero (F_mul x z);
  zero_sub : forall z x, zero z -> finite x -> finite (F_sub z x);
  lt_INFINITY : forall x, finite x -> F_lt x F_INFINITY = true;
  INFINITY_add : forall x, finite x -> F_add F_INFINITY x = F_INFINITY
}.
Arguments FloatingLaws F {_} finite zero.

Definition float_finite (x : c_float) : Prop := IEEE.is_finite (float_bits x) = true.
Definition float_zero (x : c_float) : Prop := exists sgn, float_bits x = S754_zero sgn.
Definition double_finite (x : c_double) : Prop := IEEE.is_finite (double_bits x) = true.
Definition double_zero (x : c_double) : Prop := exists sgn, double_bits x = S754_zero sgn.
Definition exact_finite (x : exact) : Prop := exists q, x = Finite q.
Definition exact_zero (x : exact) : Prop := exists q, x = Finite q /\ (q == 0)%Q.

(** ** Shapes *)

(** An array of [rows] rows with [cols] entries each. *)
Definition has_shape {A : Type} (rows cols : nat) (a : list (list A)) : bool :=
  (length a =? rows)%nat && forallb (fun r => (length r =? cols)%nat) a.

(** ** The Q criterion *)

(** [Q(i, j) = (n - 2) d(i, j) - sum d(i) - sum d(j)], evaluated in the
    element type in the order the docstring writes it. *)
Definition q_value {F : Type} `{Floating F} (n : nat) (d_ij s_i s_j : F) : F :=
  F_sub (F_sub (F_mul (F_n_minus_2 n) d_ij) s_i) s_j.

(** The scan order of the two loops: [(a, b)] is visited before [(i, j)]. *)
Definition before (a b i j : nat) : Prop := a < i \/ (a = i /\ b < j).

(** *** Over the rationals *)

Definition qd (dm : list (list Q)) (i j : nat) : Q := nth j (nth i dm []) 0%Q.
Definition qs (sums : list Q) (i : nat) : Q := nth i sums 0%Q.

Definition Qcrit (n : nat) (dm : list (list Q)) (sums : list Q) (i j : nat) : Q :=
  (inject_Z (Z.of_nat n - 2) * qd dm i j - qs sums i - qs sums j)%Q.

Definition square {A : Type} (n : nat) (a : list (list A)) : Prop :=
  length a = n /\ Forall (fun r => length r = n) a.

(** The buffers of an exact run on rational data. *)
Definition exact_views (dm : list (list Q)) (sums : list Q) : memviews exact :=
  MemViews (map (map Finite) dm) (map Finite sums).

(** The accessors of an exact run. *)
Definition exact_d (dmq : list (list Q)) (i j : nat) : exact := Finite (qd dmq i j).
Definition exact_s (sq : list Q) (i : nat) : exact := Finite (qs sq i).

(** The invariant of the exact scan.  [visited i j x y]: the pair [(x, y)]
    has been compared when the scan stands before [(i, j)]. *)

Section ExactInvariant.

Variable n : nat.
Variable dmq : list (list Q).
Variable sq : list Q.
Variable unassigned : Z * Z.

Definition visited (i j x y : nat) : Prop := x < y < n /\ before x y i j.

(** Either nothing has been compared and the locals are untouched, or
    the locals hold the first pair of least [Q] among those compared. *)
Definition min_so_far (i j : nat) (m : minimum exact) : Prop :=
  ((forall x y, ~ visited i j x y) /\
   min_q m = PlusInf /\ min_i m = fst unassigned /\ min_j m = snd unassigned)
  \/
  (exists a b qa,
      visited i j a b /\
      min_i m = Z.of_nat a /\ min_j m = Z.of_nat b /\
      min_q m = Finite qa /\ (qa == Qcrit n dmq sq a b)%Q /\
      forall x y, visited i j x y ->
        (Qcrit n dmq sq a b <= Qcrit n dmq sq x y)%Q /\
        (before x y a b -> (Qcrit n dmq sq a b < Qcrit n dmq sq x y)%Q)).

(** [min_q_plus] is [min_q + sums[i]] while row [i] is scanned. *)
Definition plus_of_row (i : nat) (m : minimum exact) (min_q_plus : exact) : Prop :=
  match min_q m with
  | Finite qa => exists qp, min_q_plus = Finite qp /\ (qp == qa + qs sq i)%Q
  | PlusInf => min_q_plus = PlusInf
  | MinusInf | Undef => False
  end.

End ExactInvariant.

(** The buffers of two exact runs whose sum vectors differ by the constant
    [c]: the relation between their locals. *)
Definition shifted (c : Q) (x y : exact) : Prop :=
  match x, y with
  | Finite a, Finite b => (b == a - c)%Q
  | PlusInf, PlusInf => True
  | _, _ => False
  end.

(** [sums'[k] = sums[k] + c] *)
Definition shift_sums (c : Q) (sq : list Q) : list Q := map (fun x => (x + c)%Q) sq.

(** The locals of the run on [sums'] are those of the run on [sums] with
    [min_q] lowered by [2 c] and [min_q_plus] lowered by [c]. *)
Definition shifted_minimum (c : Q) (m1 m2 : minimum exact) : Prop :=
  shifted (2 * c) (min_q m1) (min_q m2) /\
  min_i m1 = min_i m2 /\ min_j m1 = min_j m2.

Definition shifted_state (c : Q) (st1 st2 : exact * minimum exact) : Prop :=
  shifted c (fst st1) (fst st2) /\ shifted_minimum c (snd st1) (snd st2).

(** *** Over binary64 *)

Module Double.

Definition get2 (a : list (list c_double)) (i j : nat) : c_double :=
  nth j (nth i a []) (Double S754_nan).
Definition get1 (s : list c_double) (i : nat) : c_double :=
  nth i s (Double S754_nan).

Definition eqb (x y : c_double) : bool := SFeqb (double_bits x) (double_bits y).

Definition symmetricb (n : nat) (a : list (list c_double)) : bool :=
  forallb (fun i => forallb (fun j => eqb (get2 a i j) (get2 a j i)) (seq 0 n)) (seq 0 n).

Definition zero_diagonalb (n : nat) (a : list (list c_double)) : bool :=
  forallb (fun i => eqb (get2 a i i) (Double (S754_zero false))) (seq 0 n).

(** The row sum accumulated in binary64 from left to right. *)
Definition row_sum (row : list c_double) : c_double :=
  fold_left F_add row (Double (S754_zero false)).

Definition row_sumsb (a : list (list c_double)) (s : list c_double) : bool :=
  (length a =? length s)%nat &&
  forallb (fun rs => eqb (row_sum (fst rs)) (snd rs)) (combine a s).

Definition finiteb (x : c_double) : bool := IEEE.is_finite (double_bits x).

(** The rational a finite double denotes. *)
Definition to_Q (x : c_double) : Q :=
  match double_bits x with
  | S754_finite s m e =>
      ((if s then inject_Z (Zneg m) else inject_Z (Zpos m)) * Qpower 2 e)%Q
  | _ => 0%Q
  end.

(** The sums are the row sums as rationals, too. *)
Definition rational_row_sumsb (a : list (list c_double)) (s : list c_double) : bool :=
  (length a =? length s)%nat &&
  forallb (fun rs => Qeq_bool (fold_left Qplus (map to_Q (fst rs)) 0%Q) (to_Q (snd rs)))
          (combine a s).

Definition Q_at (n : nat) (a : list (list c_double)) (s : list c_double) (i j : nat) : c_double :=
  q_value n (get2 a i j) (get1 s i) (get1 s j).

(** [m * 2^e] as a double. *)
Definition lit (m e : Z) : c_double := Double (IEEE.b64 m e).

End Double.

(** *** Over binary32 *)

Module Single.

Definition zero : c_float := Float (S754_zero false).

(** The row sum accumulated in binary32 from left to right, one rounded
    addition per entry. *)
Definition row_sum (row : list c_float) : c_float := fold_left F_add row zero.




End Single.

(** A 4 x 4 symmetric matrix with zero diagonal and exactly representable
    row sums on which rounding decides the result: the entries are
    multiples of 1/8, except [dm[2, 3] = 2^52]. *)
Definition eighths (k : Z) : c_double := Double.lit k (-3).

Definition rounding_dm : list (list c_double) :=
  [ [eighths 0; eighths 1; eighths 5; eighths 2];
    [eighths 1; eighths 0; eighths 3; eighths 6];
    [eighths 5; eighths 3; eighths 0; Double.lit 1 52];
    [eighths 2; eighths 6; Double.lit 1 52; eighths 0] ].

Definition rounding_sums : list c_double :=
  [ Double.lit 1 0; Double.lit 5 (-2); Double.lit (2 ^ 52 + 1) 0; Double.lit (2 ^ 52 + 1) 0 ].

(** A 4 x 4 matrix on which [(0, 2)] and [(1, 3)] tie for the minimum: the
    entries are multiples of 1/2, except [dm[2, 3] = 2^53]. *)
Definition halves (k : Z) : c_double := Double.lit k (-1).

Definition tie_dm : list (list c_double) :=
  [ [halves 0; halves 2; halves 5; halves 3];
    [halves 2; halves 0; halves 7; halves 1];
    [halves 5; halves 7; halves 0; Double.lit 1 53];
    [halves 3; halves 1; Double.lit 1 53; halves 0] ].

Definition tie_sums : list c_double :=
  [ Double.lit 5 0; Double.lit 5 0; Double.lit (2 ^ 53 + 6) 0; Double.lit (2 ^ 53 + 2) 0 ].

(** ** Sample inputs *)

(** Three taxa with [d(A,B) = 5], [d(A,C) = 9], [d(B,C) = 10]. *)
Definition three_taxa_dm : list (list Q) :=
  map (map inject_Z) [[0; 5; 9]; [5; 0; 10]; [9; 10; 0]]%Z.

Definition three_taxa_sums : list Q := map inject_Z [14; 15; 19]%Z.

(** The same three taxa in binary64. *)
Definition three_taxa_f64 : list (list c_double) :=
  map (map (fun k => Double.lit k 0)) [[0; 5; 9]; [5; 0; 10]; [9; 10; 0]]%Z.

Definition three_taxa_sums_f64 : list c_double :=
  map (fun k => Double.lit k 0) [14; 15; 19]%Z.

(** A sum vector with one entry more than the matrix has rows. *)
Definition four_sums_f64 : list c_double :=
  map (fun k => Double.lit k 0) [14; 15; 19; 99]%Z.

(** The three taxa again, with other values on and below the diagonal. *)
Definition three_taxa_upper_f64 : list (list c_double) :=
  map (map (fun k => Double.lit k 0)) [[1; 5; 9]; [-2; 3; 10]; [70; 80; 90]]%Z.

(** A single node. *)
Definition one_node_f64 : list (list c_double) := [[Double.lit 0 0]].
Definition one_node_sums_f64 : list c_double := [Double.lit 0 0].

(** Two nodes at distance 3/2, in binary32. *)
Definition two_nodes_f32 : list (list c_float) :=
  [ [Float (IEEE.b32 0 0); Float (IEEE.b32 3 (-1))];
    [Float (IEEE.b32 3 (-1)); Float (IEEE.b32 0 0)] ].
Definition two_nodes_sums_f32 : list c_float :=
  [Float (IEEE.b32 3 (-1)); Float (IEEE.b32 3 (-1))].

(** Two nodes at distance 3, in binary64. *)
Definition two_nodes_f64 : list (list c_double) :=
  [ [Double.lit 0 0; Double.lit 3 0]; [Double.lit 3 0; Double.lit 0 0] ].
Definition two_nodes_sums_f64 : list c_double := [Double.lit 3 0; Double.lit 3 0].







(** The pairs [i < j < 4] in scan order. *)
Definition pairs4 : list (nat * nat) := [(0, 1); (0, 2); (0, 3); (1, 2); (1, 3); (2, 3)].

(** ** The reads of a run and further transformations of its input *)

(** Every read of the two loops lands inside the buffers: [sums] has an
    entry for each row, and each row has an entry at every column
    [i < j < n]. *)
Definition in_bounds {F : Type} (mv : memviews F) : Prop :=
  length (dm mv) <= length (sums mv) /\
  forall i j, i < j < length (dm mv) -> entry (dm mv) i j <> None.

(** Total accessors, with a value for the places that do not exist. *)
Definition entry_or {A : Type} (dflt : A) (a : list (list A)) (i j : nat) : A :=
  match entry a i j with
  | Some x => x
  | None => dflt
  end.

Definition nth_or {A : Type} (dflt : A) (s : list A) (i : nat) : A :=
  match nth_error s i with
  | Some x => x
  | None => dflt
  end.

(** The locals before the first assignment. *)
Definition initial_minimum {F : Type} `{Floating F} (unassigned : Z * Z) : minimum F :=
  {| min_q := F_INFINITY; min_i := fst unassigned; min_j := snd unassigned |}.

(** Not-a-number. *)
Definition float_nan (x : c_float) : Prop := float_bits x = S754_nan.
Definition double_nan (x : c_double) : Prop := double_bits x = S754_nan.

(** A change of unit and origin: every distance becomes [k * d + c] and
    every sum [k * s + t]. *)
Definition affine_dm (k c : Q) (dmq : list (list Q)) : list (list Q) :=
  map (map (fun x => (k * x + c)%Q)) dmq.

Definition affine_sums (k t : Q) (sq : list Q) : list Q :=
  map (fun x => (k * x + t)%Q) sq.

(** [y = k * x + e] on finite values; [INFINITY] stays [INFINITY]. *)
Definition scaled (k e : Q) (x y : exact) : Prop :=
  match x, y with
  | Finite a, Finite b => (b == k * a + e)%Q
  | PlusInf, PlusInf => True
  | _, _ => False
  end.

(** The locals of the run on the transformed input against those of the
    run on the original input, where [n_2] stands for [n - 2]. *)
Definition scaled_minimum (k c t n_2 : Q) (m1 m2 : minimum exact) : Prop :=
  scaled k (c * n_2 - 2 * t) (min_q m1) (min_q m2) /\
  min_i m1 = min_i m2 /\ min_j m1 = min_j m2.

Definition scaled_state (k c t n_2 : Q) (st1 st2 : exact * minimum exact) : Prop :=
  scaled k (c * n_2 - t) (fst st1) (fst st2) /\ scaled_minimum k c t n_2 (snd st1) (snd st2).

(** A symmetric matrix with zero diagonal whose row sums are [sq], on
    three nodes. *)
Definition three_nodes_consistent (dmq : list (list Q)) (sq : list Q) : Prop :=
  (forall i j, i < 3 -> j < 3 -> (qd dmq i j == qd dmq j i)%Q) /\
  (forall i, i < 3 -> (qd dmq i i == 0)%Q) /\
  (forall i, i < 3 -> (qs sq i == qd dmq i 0 + qd dmq i 1 + qd dmq i 2)%Q).

(** Three rows of four entries: the three taxa with a surplus column and
    other values on and below the diagonal. *)
Definition three_by_four_f64 : list (list c_double) :=
  map (map (fun k => Double.lit k 0)) [[6; 5; 9; 41]; [7; 8; 10; 42]; [1; 2; 3; 43]]%Z.

(** Sums that are all NaN. *)
Definition nan_sums_f64 : list c_double :=
  [Double S754_nan; Double S754_nan; Double S754_nan].

(** * Properties *)

Unset Implicit Arguments.

(** ** The monad *)

Lemma bind_returns {F A B : Type} (c : M F A) (k : A -> M F B) mv b mv' :
  bind c k mv = Returns (b, mv') ->
  exists a mv0, c mv = Returns (a, mv0) /\ k a mv0 = Returns (b, mv').
Proof.
  unfold bind. destruct (c mv) as [[a mv0]|]; [|discriminate].
  intros Hk. exists a, mv0. split; [reflexivity|exact Hk].
Qed.

Lemma read_only_ret {F A : Type} (a : A) : read_only (@ret F A a).
Proof. intros mv a' mv' E. unfold ret in E. congruence. Qed.

Lemma read_only_bind {F A B : Type} (c : M F A) (k : A -> M F B) :
  read_only c -> (forall a, read_only (k a)) -> read_only (bind c k).
Proof.
  intros Hc Hk mv b mv' E.
  apply bind_returns in E. destruct E as (a & mv0 & E1 & E2).
  apply Hc in E1. subst mv0. exact (Hk a _ _ _ E2).
Qed.

Section KernelFacts.

Context {F : Type} `{Floating F}.

Lemma read_only_shape0 : read_only (@shape0 F).
Proof. intros mv a mv' E. unfold shape0 in E. congruence. Qed.

Lemma read_only_load_dm i j : read_only (@load_dm F i j).
Proof.
  intros mv a mv' E. unfold load_dm in E.
  destruct (entry (dm mv) i j); congruence.
Qed.

Lemma read_only_load_sums i : read_only (@load_sums F i).
Proof.
  intros mv a mv' E. unfold load_sums in E.
  destruct (nth_error (sums mv) i); congruence.
Qed.

Lemma read_only_for_each {S : Type} (body : S -> nat -> M F S) :
  (forall st k, read_only (body st k)) ->
  forall l st, read_only (for_each l body st).
Proof.
  intros Hb l. induction l as [|k l IH]; intros st; simpl.
  - apply read_only_ret.
  - apply read_only_bind; [apply Hb|]. intros st'. apply IH.
Qed.

Lemma read_only_inner_body n_2 i st j : read_only (inner_body n_2 i st j).
Proof.
  unfold inner_body.
  apply read_only_bind; [apply read_only_load_dm|]. intros x.
  apply read_only_bind; [apply read_only_load_sums|]. intros s_j.
  destruct (F_lt _ _).
  - apply read_only_bind; [apply read_only_load_sums|]. intros s_i. apply read_only_ret.
  - apply read_only_ret.
Qed.

Lemma read_only_outer_body n n_2 m i : read_only (outer_body n n_2 m i).
Proof.
  unfold outer_body.
  apply read_only_bind; [apply read_only_load_sums|]. intros s_i.
  apply read_only_bind.
  - apply read_only_for_each. intros st k. apply read_only_inner_body.
  - intros st. apply read_only_ret.
Qed.

Lemma read_only_nj_minq_cy g : read_only (nj_minq_cy g).
Proof.
  unfold nj_minq_cy.
  apply read_only_bind; [apply read_only_shape0|]. intros n.
  apply read_only_bind.
  - apply read_only_for_each. intros st k. apply read_only_outer_body.
  - intros m. apply read_only_ret.
Qed.

End KernelFacts.

(** ** Two runs side by side *)

Section Relational.

Context {F : Type}.
Variables mv1 mv2 : memviews F.

Lemma rel_run_ret {A : Type} (R : A -> A -> Prop) a1 a2 :
  R a1 a2 -> rel_run R mv1 mv2 (ret a1) (ret a2).
Proof. intros HR. unfold rel_run, ret. auto. Qed.

Lemma rel_run_bind {A B : Type} (R : A -> A -> Prop) (R' : B -> B -> Prop)
    (c1 c2 : M F A) (k1 k2 : A -> M F B) :
  rel_run R mv1 mv2 c1 c2 ->
  (forall a1 a2, R a1 a2 -> rel_run R' mv1 mv2 (k1 a1) (k2 a2)) ->
  rel_run R' mv1 mv2 (bind c1 k1) (bind c2 k2).
Proof.
  unfold rel_run, bind. intros Hc Hk.
  destruct (c1 mv1) as [[a1 m1]|], (c2 mv2) as [[a2 m2]|]; try contradiction; auto.
  destruct Hc as (HR & -> & ->). exact (Hk a1 a2 HR).
Qed.

Lemma rel_run_for_each {S : Type} (R : S -> S -> Prop) (body1 body2 : S -> nat -> M F S) l :
  (forall st1 st2 k, In k l -> R st1 st2 ->
     rel_run R mv1 mv2 (body1 st1 k) (body2 st2 k)) ->
  forall st1 st2, R st1 st2 ->
    rel_run R mv1 mv2 (for_each l body1 st1) (for_each l body2 st2).
Proof.
  induction l as [|k l IH]; intros Hb st1 st2 HR; simpl.
  - now apply rel_run_ret.
  - apply rel_run_bind with (R := R).
    + apply Hb; [now left|exact HR].
    + intros a1 a2 Ha. apply IH; [|exact Ha].
      intros s1 s2 k' Hin. apply Hb. now right.
Qed.

Lemma rel_run_weaken {A : Type} (R R' : A -> A -> Prop) (c1 c2 : M F A) :
  (forall a1 a2, R a1 a2 -> R' a1 a2) ->
  rel_run R mv1 mv2 c1 c2 -> rel_run R' mv1 mv2 c1 c2.
Proof.
  unfold rel_run. intros HRR.
  destruct (c1 mv1) as [[a1 m1]|], (c2 mv2) as [[a2 m2]|]; auto.
  intros (HR & E1 & E2). auto.
Qed.

End Relational.

(** ** The run as a fold *)

Section FoldFacts.

Context {F : Type} `{Floating F}.
Variable d : nat -> nat -> F.
Variable s : nat -> F.
Variable mv : memviews F.
Variable n : nat.
Hypothesis Hreads : reads d s mv n.

Lemma for_each_fold {S : Type} (body : S -> nat -> M F S) (f : S -> nat -> S) l :
  (forall st k, In k l -> body st k mv = Returns (f st k, mv)) ->
  forall st, for_each l body st mv = Returns (fold_left f l st, mv).
Proof.
  induction l as [|k l IH]; intros Hb st; simpl.
  - reflexivity.
  - unfold bind. rewrite Hb by now left.
    apply IH. intros st' k' Hin. apply Hb. now right.
Qed.

Lemma inner_body_fold n_2 i st j :
  i < j < n ->
  inner_body n_2 i st j mv = Returns (inner_fold d s n_2 i st j, mv).
Proof.
  intros Hij. destruct Hreads as (_ & Hd & Hs).
  unfold inner_body, inner_fold, min_q_plus, bind.
  rewrite (Hd i j Hij). rewrite (Hs j) by lia.
  destruct (F_lt _ _); [|reflexivity].
  rewrite (Hs i) by lia. reflexivity.
Qed.

Lemma outer_body_fold n_2 m i :
  i < n ->
  outer_body n n_2 m i mv = Returns (outer_fold d s n n_2 m i, mv).
Proof.
  intros Hi. destruct Hreads as (_ & _ & Hs).
  unfold outer_body, outer_fold, bind. rewrite (Hs i Hi).
  rewrite for_each_fold with (f := inner_fold d s n_2 i).
  - reflexivity.
  - intros st j Hin. apply inner_body_fold.
    unfold range in Hin. apply in_seq in Hin. lia.
Qed.

Lemma nj_minq_cy_fold g :
  nj_minq_cy g mv =
  Returns ((min_i (scan_fold d s n g), min_j (scan_fold d s n g)), mv).
Proof.
  unfold nj_minq_cy, scan_fold, bind, shape0.
  destruct Hreads as (Hn & _). rewrite Hn.
  rewrite for_each_fold with (f := outer_fold d s n (F_n_minus_2 n)).
  - reflexivity.
  - intros st i Hin. apply outer_body_fold.
    unfold range in Hin. apply in_seq in Hin. lia.
Qed.

End FoldFacts.

(** ** Exact arithmetic: the scan keeps the first least pair *)

Lemma Qltb_true a b : Exact.Qltb a b = true <-> (a < b)%Q.
Proof.
  unfold Exact.Qltb. rewrite negb_true_iff.
  split.
  - intros E. apply Qnot_le_lt. intros Hle.
    apply Qle_bool_iff in Hle. congruence.
  - intros Hlt. destruct (Qle_bool b a) eqn:E; [|reflexivity].
    apply Qle_bool_iff in E. exfalso. exact (Qlt_not_le _ _ Hlt E).
Qed.

Lemma Qltb_false a b : Exact.Qltb a b = false <-> (b <= a)%Q.
Proof.
  unfold Exact.Qltb. rewrite negb_false_iff. apply Qle_bool_iff.
Qed.

Lemma entry_map {A B : Type} (f : A -> B) (a : list (list A)) i j :
  entry (map (map f) a) i j = option_map f (entry a i j).
Proof.
  unfold entry. rewrite nth_error_map.
  destruct (nth_error a i) as [row|]; simpl; [|reflexivity].
  apply nth_error_map.
Qed.

Lemma entry_square {A : Type} (n : nat) (a : list (list A)) (dflt : A) i j :
  square n a -> i < n -> j < n ->
  entry a i j = Some (nth j (nth i a []) dflt).
Proof.
  intros (Hlen & Hrows) Hi Hj. unfold entry.
  rewrite (nth_error_nth' a [] (n := i)) by lia.
  apply nth_error_nth'.
  rewrite Forall_forall in Hrows. rewrite (Hrows (nth i a [])); [exact Hj|].
  apply nth_In. lia.
Qed.

Lemma reads_exact_views n dmq sq :
  square n dmq -> n <= length sq ->
  reads (exact_d dmq) (exact_s sq) (exact_views dmq sq) n.
Proof.
  intros Hsq Hlen. unfold reads, exact_views. simpl. split; [|split].
  - rewrite length_map. apply Hsq.
  - intros i j Hij. unfold load_dm. simpl.
    rewrite entry_map, (entry_square n dmq 0%Q i j Hsq) by lia. reflexivity.
  - intros i Hi. unfold load_sums. simpl.
    rewrite nth_error_map, (nth_error_nth' sq 0%Q (n := i)) by lia. reflexivity.
Qed.

Section ExactScan.

Variable n : nat.
Variable dmq : list (list Q).
Variable sq : list Q.
Variable g : Z * Z.

Lemma min_so_far_ext i j i' j' m :
  (forall x y, visited n i j x y <-> visited n i' j' x y) ->
  min_so_far n dmq sq g i j m -> min_so_far n dmq sq g i' j' m.
Proof.
  intros Hext [(Hnone & Hq & Hi & Hj) | (a & b & qa & Hv & Hi & Hj & Hq & Hqa & Hmin)].
  - left. split; [|auto]. intros x y Hxy. apply (Hnone x y). now apply Hext.
  - right. exists a, b, qa.
    split; [now apply Hext|]. do 4 (split; [assumption|]).
    intros x y Hxy. apply Hmin. now apply Hext.
Qed.

(** The new pair [(i, j)] becomes the minimum. *)
Lemma min_so_far_take i j q m' :
  i < j < n ->
  min_i m' = Z.of_nat i -> min_j m' = Z.of_nat j -> min_q m' = Finite q ->
  (q == Qcrit n dmq sq i j)%Q ->
  (forall x y, visited n i j x y ->
     (Qcrit n dmq sq i j < Qcrit n dmq sq x y)%Q) ->
  min_so_far n dmq sq g i (j + 1) m'.
Proof.
  intros Hij Hi Hj Hq Hqv Hless. right. exists i, j, q.
  split; [unfold visited, before; lia|]. do 4 (split; [assumption|]).
  intros x y Hxy.
  assert (Hcase : visited n i j x y \/ (x = i /\ y = j))
    by (revert Hxy; unfold visited, before; lia).
  destruct Hcase as [Hold | (-> & ->)].
  - split; [apply Qlt_le_weak|intros _]; now apply Hless.
  - split; [apply Qle_refl|]. unfold before. lia.
Qed.

(** The new pair [(i, j)] does not beat the minimum. *)
Lemma min_so_far_keep i j a b qa m :
  i < j < n ->
  visited n i j a b ->
  min_i m = Z.of_nat a -> min_j m = Z.of_nat b -> min_q m = Finite qa ->
  (qa == Qcrit n dmq sq a b)%Q ->
  (forall x y, visited n i j x y ->
     (Qcrit n dmq sq a b <= Qcrit n dmq sq x y)%Q /\
     (before x y a b -> (Qcrit n dmq sq a b < Qcrit n dmq sq x y)%Q)) ->
  (Qcrit n dmq sq a b <= Qcrit n dmq sq i j)%Q ->
  min_so_far n dmq sq g i (j + 1) m.
Proof.
  intros Hij Hv Hi Hj Hq Hqa Hmin Hle. right. exists a, b, qa.
  split; [revert Hv; unfold visited, before; lia|]. do 4 (split; [assumption|]).
  intros x y Hxy.
  assert (Hcase : visited n i j x y \/ (x = i /\ y = j))
    by (revert Hxy; unfold visited, before; lia).
  destruct Hcase as [Hold | (-> & ->)].
  - now apply Hmin.
  - split; [exact Hle|]. revert Hv. unfold visited, before. lia.
Qed.

Lemma inner_fold_inv i j m mqp :
  i < j < n ->
  min_so_far n dmq sq g i j m ->
  plus_of_row sq i m mqp ->
  min_so_far n dmq sq g i (j + 1)
    (snd (inner_fold (exact_d dmq) (exact_s sq) (F_n_minus_2 n) i (mqp, m) j)) /\
  plus_of_row sq i
    (snd (inner_fold (exact_d dmq) (exact_s sq) (F_n_minus_2 n) i (mqp, m) j))
    (fst (inner_fold (exact_d dmq) (exact_s sq) (F_n_minus_2 n) i (mqp, m) j)).
Proof.
  intros Hij Hinv Hplus.
  unfold inner_fold, min_q_plus, exact_d, exact_s.
  cbn [fst snd F_lt F_sub F_mul F_n_minus_2 Floating_exact
       Exact.sub Exact.mul Exact.add Exact.opp].
  destruct Hinv as [(Hnone & Hq & Hi & Hj) | (a & b & qa & Hv & Hi & Hj & Hq & Hqa & Hmin)].
  - unfold plus_of_row in Hplus. rewrite Hq in Hplus. subst mqp.
    cbn [Exact.lt fst snd]. split.
    + eapply min_so_far_take; try reflexivity; [exact Hij| |].
      * unfold Qcrit. ring.
      * intros x y Hxy. now apply Hnone in Hxy.
    + unfold plus_of_row. cbn [min_q]. eexists. split; [reflexivity|]. ring.
  - unfold plus_of_row in Hplus. rewrite Hq in Hplus.
    destruct Hplus as (qp & -> & Hqp).
    cbn [Exact.lt].
    destruct (Exact.Qltb _ qp) eqn:Hcmp; cbn [fst snd].
    + apply Qltb_true in Hcmp.
      assert (Hlt : (Qcrit n dmq sq i j < Qcrit n dmq sq a b)%Q).
      { rewrite <- Hqa. unfold Qcrit. rewrite Hqp in Hcmp. lra. }
      split.
      * eapply min_so_far_take; try reflexivity; [exact Hij| |].
        -- unfold Qcrit. ring.
        -- intros x y Hxy. eapply Qlt_le_trans; [exact Hlt|]. now apply Hmin.
      * unfold plus_of_row. cbn [min_q]. eexists. split; [reflexivity|]. ring.
    + apply Qltb_false in Hcmp.
      assert (Hle : (Qcrit n dmq sq a b <= Qcrit n dmq sq i j)%Q).
      { rewrite <- Hqa. unfold Qcrit. rewrite Hqp in Hcmp. lra. }
      split.
      * eapply min_so_far_keep; eauto.
      * unfold plus_of_row. rewrite Hq. exists qp. split; [reflexivity|exact Hqp].
Qed.

Lemma inner_loop_inv i len :
  forall j0 st,
    i < j0 -> j0 + len = n ->
    min_so_far n dmq sq g i j0 (snd st) ->
    plus_of_row sq i (snd st) (fst st) ->
    min_so_far n dmq sq g i n
      (snd (fold_left (inner_fold (exact_d dmq) (exact_s sq) (F_n_minus_2 n) i)
                      (seq j0 len) st)).
Proof.
  induction len as [|len IH]; intros j0 st Hi Hlen Hinv Hplus; simpl.
  - assert (E : j0 = n) by lia. subst j0. exact Hinv.
  - destruct st as [mqp m]. simpl in Hinv, Hplus.
    destruct (inner_fold_inv i j0 m mqp) as (Hinv' & Hplus');
      [lia|exact Hinv|exact Hplus|].
    apply IH; [lia|lia| |exact Hplus'].
    replace (S j0) with (j0 + 1) by lia. exact Hinv'.
Qed.

Lemma plus_of_row_start i m :
  min_so_far n dmq sq g i (i + 1) m ->
  plus_of_row sq i m (F_add (min_q m) (exact_s sq i)).
Proof.
  unfold plus_of_row, exact_s. cbn [F_add Floating_exact].
  intros [(_ & Hq & _) | (a & b & qa & _ & _ & _ & Hq & _)]; rewrite Hq; cbn [Exact.add].
  - reflexivity.
  - eexists. split; [reflexivity|]. reflexivity.
Qed.

Lemma outer_fold_inv i m :
  i < n ->
  min_so_far n dmq sq g i (i + 1) m ->
  min_so_far n dmq sq g (i + 1) (i + 2)
    (outer_fold (exact_d dmq) (exact_s sq) n (F_n_minus_2 n) m i).
Proof.
  intros Hi Hinv. unfold outer_fold, range.
  apply min_so_far_ext with (i := i) (j := n).
  - intros x y. unfold visited, before. lia.
  - apply inner_loop_inv; [lia|lia|exact Hinv|].
    cbn [fst snd]. now apply plus_of_row_start.
Qed.

Lemma outer_loop_inv len :
  forall i0 m,
    i0 + len = n ->
    min_so_far n dmq sq g i0 (i0 + 1) m ->
    min_so_far n dmq sq g n (n + 1)
      (fold_left (outer_fold (exact_d dmq) (exact_s sq) n (F_n_minus_2 n))
                 (seq i0 len) m).
Proof.
  induction len as [|len IH]; intros i0 m Hlen Hinv; simpl.
  - assert (E : i0 = n) by lia. subst i0. exact Hinv.
  - apply IH; [lia|].
    replace (S i0 + 1) with (i0 + 2) by lia.
    replace (S i0) with (i0 + 1) by lia.
    apply outer_fold_inv; [lia|exact Hinv].
Qed.

Lemma scan_fold_inv :
  min_so_far n dmq sq g n (n + 1) (scan_fold (exact_d dmq) (exact_s sq) n g).
Proof.
  unfold scan_fold, range. apply outer_loop_inv; [lia|].
  left. cbn [min_q min_i min_j F_INFINITY Floating_exact].
  split; [|auto]. intros x y. unfold visited, before. lia.
Qed.

(** With two nodes or more the exact scan ends on the first pair of least
    [Q] among all pairs [x < y < n]. *)
Lemma scan_fold_first_least :
  2 <= n ->
  exists i j,
    min_i (scan_fold (exact_d dmq) (exact_s sq) n g) = Z.of_nat i /\
    min_j (scan_fold (exact_d dmq) (exact_s sq) n g) = Z.of_nat j /\
    i < j < n /\
    forall x y, x < y < n ->
      (Qcrit n dmq sq i j <= Qcrit n dmq sq x y)%Q /\
      (before x y i j -> (Qcrit n dmq sq i j < Qcrit n dmq sq x y)%Q).
Proof.
  intros Hn.
  destruct scan_fold_inv as [(Hnone & _) | (a & b & qa & Hv & Hi & Hj & _ & _ & Hmin)].
  - exfalso. apply (Hnone 0 1). unfold visited, before. lia.
  - exists a, b. split; [exact Hi|]. split; [exact Hj|]. split; [apply Hv|].
    intros x y Hxy. apply Hmin. unfold visited, before. lia.
Qed.

End ExactScan.

(** The exact run on well-shaped rational data. *)
Lemma nj_minq_cy_exact_first_least n dmq sq g :
  2 <= n -> square n dmq -> n <= length sq ->
  exists i j,
    nj_minq_cy g (exact_views dmq sq) =
      Returns ((Z.of_nat i, Z.of_nat j), exact_views dmq sq) /\
    i < j < n /\
    forall x y, x < y < n ->
      (Qcrit n dmq sq i j <= Qcrit n dmq sq x y)%Q /\
      (before x y i j -> (Qcrit n dmq sq i j < Qcrit n dmq sq x y)%Q).
Proof.
  intros Hn Hsq Hlen.
  destruct (scan_fold_first_least n dmq sq g Hn) as (i & j & Hi & Hj & Hij & Hmin).
  exists i, j. split; [|split; assumption].
  rewrite (nj_minq_cy_fold _ _ _ _ (reads_exact_views n dmq sq Hsq Hlen) g).
  now rewrite Hi, Hj.
Qed.

(** ** Runs on buffers that agree where the scan reads *)

Section Agreement.

Context {F : Type} `{Floating F}.
Variables mv1 mv2 : memviews F.
Hypothesis Hrows : length (dm mv1) = length (dm mv2).
Hypothesis Hsums : forall i, i < length (dm mv1) ->
  nth_error (sums mv1) i = nth_error (sums mv2) i.
Hypothesis Hupper : forall i j, i < j < length (dm mv1) ->
  entry (dm mv1) i j = entry (dm mv2) i j.

(** The relation kept between the locals of the two runs. *)
Variable R : minimum F -> minimum F -> Prop.
Hypothesis R_min_q : forall m1 m2, R m1 m2 -> min_q m1 = min_q m2.
Hypothesis R_assigned : forall q (i j : nat), i < j < length (dm mv1) ->
  R (Minimum q (Z.of_nat i) (Z.of_nat j)) (Minimum q (Z.of_nat i) (Z.of_nat j)).

Lemma rel_run_load_dm i j :
  i < j < length (dm mv1) -> rel_run eq mv1 mv2 (load_dm i j) (load_dm i j).
Proof.
  intros Hij. unfold rel_run, load_dm. rewrite (Hupper i j Hij).
  destruct (entry (dm mv2) i j); auto.
Qed.

Lemma rel_run_load_sums i :
  i < length (dm mv1) ->
  rel_run eq mv1 mv2 (load_sums i) (load_sums i).
Proof.
  intros Hi. unfold rel_run, load_sums. rewrite (Hsums i Hi).
  destruct (nth_error (sums mv2) i); auto.
Qed.

Lemma rel_run_inner_body n_2 i j st1 st2 :
  i < j < length (dm mv1) ->
  fst st1 = fst st2 -> R (snd st1) (snd st2) ->
  rel_run (fun a b => fst a = fst b /\ R (snd a) (snd b)) mv1 mv2
          (inner_body n_2 i st1 j) (inner_body n_2 i st2 j).
Proof.
  intros Hij Hplus HR. unfold inner_body, min_q_plus.
  eapply rel_run_bind; [apply (rel_run_load_dm i j Hij)|]. intros x ? <-.
  eapply rel_run_bind; [apply rel_run_load_sums; lia|]. intros s_j ? <-.
  rewrite <- Hplus. destruct (F_lt _ (fst st1)).
  - eapply rel_run_bind; [apply rel_run_load_sums; lia|]. intros s_i ? <-.
    apply rel_run_ret. split; [reflexivity|now apply R_assigned].
  - apply rel_run_ret. split; assumption.
Qed.

Lemma rel_run_outer_body n_2 i m1 m2 :
  i < length (dm mv1) ->
  R m1 m2 ->
  rel_run R mv1 mv2 (outer_body (length (dm mv1)) n_2 m1 i)
                    (outer_body (length (dm mv1)) n_2 m2 i).
Proof.
  intros Hi HR. unfold outer_body.
  eapply rel_run_bind; [now apply rel_run_load_sums|]. intros s_i ? <-.
  eapply rel_run_bind.
  - apply rel_run_for_each
      with (R := fun a b : F * minimum F => fst a = fst b /\ R (snd a) (snd b)).
    + intros st1 st2 j Hin (Hplus & Hm).
      apply rel_run_inner_body; [|assumption|assumption].
      unfold range in Hin. apply in_seq in Hin. lia.
    + cbn [fst snd]. rewrite (R_min_q _ _ HR). split; [reflexivity|exact HR].
  - intros st1 st2 (_ & Hm). apply rel_run_ret. exact Hm.
Qed.

Lemma rel_run_nj_minq_cy g1 g2 :
  R (Minimum F_INFINITY (fst g1) (snd g1)) (Minimum F_INFINITY (fst g2) (snd g2)) ->
  rel_run (fun p1 p2 => exists m1 m2, R m1 m2 /\
                          p1 = (min_i m1, min_j m1) /\ p2 = (min_i m2, min_j m2))
          mv1 mv2 (nj_minq_cy g1) (nj_minq_cy g2).
Proof.
  intros Hinit. unfold nj_minq_cy.
  eapply rel_run_bind
    with (R := fun a b => a = length (dm mv1) /\ b = length (dm mv1)).
  - unfold rel_run, shape0. rewrite <- Hrows. auto.
  - intros ? ? (-> & ->).
    eapply rel_run_bind.
    + apply rel_run_for_each with (R := R); [|exact Hinit].
      intros m1 m2 i Hin HR. apply rel_run_outer_body; [|exact HR].
      unfold range in Hin. apply in_seq in Hin. lia.
    + intros m1 m2 HR. apply rel_run_ret. exists m1, m2. auto.
Qed.

End Agreement.

Lemma rel_run_value_of {F A : Type} (R : A -> A -> Prop) (mv1 mv2 : memviews F)
    (c1 c2 : M F A) :
  rel_run R mv1 mv2 c1 c2 ->
  (c1 mv1 = OutOfBounds /\ c2 mv2 = OutOfBounds) \/
  (exists a1 a2, R a1 a2 /\ c1 mv1 = Returns (a1, mv1) /\ c2 mv2 = Returns (a2, mv2)).
Proof.
  unfold rel_run.
  destruct (c1 mv1) as [[a1 m1]|], (c2 mv2) as [[a2 m2]|]; try contradiction.
  - intros (HR & -> & ->). right. exists a1, a2. auto.
  - intros _. left. auto.
Qed.

(** ** Fewer than two rows *)

Section Bounds.

Context {F : Type} `{Floating F}.

(** With fewer than two rows no pair is compared: the locals come back
    as they were. *)
Lemma nj_minq_cy_no_pair g mv :
  length (dm mv) < 2 -> length (dm mv) <= length (sums mv) ->
  nj_minq_cy g mv = Returns (g, mv).
Proof.
  intros Hn Hs. unfold nj_minq_cy, bind, shape0.
  destruct (length (dm mv)) as [|[|n]] eqn:En; [| |lia].
  - simpl. unfold ret. now destruct g.
  - cbn [range for_each seq Nat.sub].
    unfold bind, outer_body, bind, load_sums.
    destruct (sums mv) as [|s0 ss] eqn:Es; [simpl in Hs; lia|].
    cbn. unfold ret. now destruct g.
Qed.

End Bounds.

(** ** Exact arithmetic: a constant added to every sum *)

Lemma Qltb_shift c q1 p1 q2 p2 :
  (q2 == q1 - c)%Q -> (p2 == p1 - c)%Q -> Exact.Qltb q1 p1 = Exact.Qltb q2 p2.
Proof.
  intros Hq Hp.
  destruct (Exact.Qltb q1 p1) eqn:E1, (Exact.Qltb q2 p2) eqn:E2; try reflexivity.
  - apply Qltb_true in E1. apply Qltb_false in E2. lra.
  - apply Qltb_false in E1. apply Qltb_true in E2. lra.
Qed.

Section Shift.

Variable dmq : list (list Q).
Variable sq : list Q.
Variable c : Q.

Lemma shift_load_dm i j :
  rel_run (fun a b => exists q, a = Finite q /\ b = Finite q)
          (exact_views dmq sq) (exact_views dmq (shift_sums c sq))
          (load_dm i j) (load_dm i j).
Proof.
  unfold rel_run, load_dm, exact_views. cbn [dm].
  rewrite entry_map. destruct (entry dmq i j) as [q|]; simpl; eauto.
Qed.

Lemma shift_load_sums i :
  rel_run (fun a b => exists q, a = Finite q /\ b = Finite (q + c))
          (exact_views dmq sq) (exact_views dmq (shift_sums c sq))
          (load_sums i) (load_sums i).
Proof.
  unfold rel_run, load_sums, exact_views, shift_sums. cbn [sums].
  rewrite !nth_error_map. destruct (nth_error sq i) as [q|]; simpl; eauto.
Qed.

Lemma shift_inner_body n i j st1 st2 :
  (shifted_state c) st1 st2 ->
  rel_run (shifted_state c) (exact_views dmq sq) (exact_views dmq (shift_sums c sq))
          (inner_body (F_n_minus_2 n) i st1 j) (inner_body (F_n_minus_2 n) i st2 j).
Proof.
  intros (Hplus & Hm). unfold inner_body, min_q_plus.
  eapply rel_run_bind; [apply shift_load_dm|]. intros ? ? (x & -> & ->).
  eapply rel_run_bind; [apply shift_load_sums|]. intros ? ? (s_j & -> & ->).
  cbn [F_lt F_sub F_mul F_n_minus_2 Floating_exact
       Exact.sub Exact.mul Exact.add Exact.opp].
  assert (Hcmp : Exact.lt (Finite (x * inject_Z (Z.of_nat n - 2) + - s_j)) (fst st1) =
                 Exact.lt (Finite (x * inject_Z (Z.of_nat n - 2) + - (s_j + c))) (fst st2)).
  { unfold shifted in Hplus.
    destruct (fst st1) as [p1| | |], (fst st2) as [p2| | |]; try contradiction.
    - cbn [Exact.lt]. apply Qltb_shift with (c := c); [ring|exact Hplus].
    - reflexivity. }
  rewrite <- Hcmp. destruct (Exact.lt _ (fst st1)).
  - eapply rel_run_bind; [apply shift_load_sums|]. intros ? ? (s_i & -> & ->).
    apply rel_run_ret. split; [|split; [|split; reflexivity]]; cbn; ring.
  - apply rel_run_ret. split; assumption.
Qed.

Lemma shift_outer_body n i m1 m2 :
  (shifted_minimum c) m1 m2 ->
  rel_run (shifted_minimum c) (exact_views dmq sq) (exact_views dmq (shift_sums c sq))
          (outer_body n (F_n_minus_2 n) m1 i) (outer_body n (F_n_minus_2 n) m2 i).
Proof.
  intros Hm. unfold outer_body.
  eapply rel_run_bind; [apply shift_load_sums|]. intros ? ? (s_i & -> & ->).
  eapply rel_run_bind.
  - apply rel_run_for_each with (R := (shifted_state c)).
    + intros st1 st2 j _ Hst. now apply shift_inner_body.
    + split; [|exact Hm]. cbn [fst F_add Floating_exact].
      destruct Hm as (Hq & _). unfold shifted in *.
      destruct (min_q m1) as [q1| | |], (min_q m2) as [q2| | |]; try contradiction.
      * cbn. rewrite Hq. ring.
      * exact I.
  - intros st1 st2 (_ & Hm'). apply rel_run_ret. exact Hm'.
Qed.

Lemma shift_nj_minq_cy g :
  value_of (nj_minq_cy g (exact_views dmq (shift_sums c sq))) =
  value_of (nj_minq_cy g (exact_views dmq sq)).
Proof.
  assert (Hrel : rel_run eq (exact_views dmq sq) (exact_views dmq (shift_sums c sq))
                   (nj_minq_cy g) (nj_minq_cy g)).
  { unfold nj_minq_cy.
    eapply rel_run_bind with (R := eq).
    - unfold rel_run, shape0. auto.
    - intros n ? <-. eapply rel_run_bind.
      + apply rel_run_for_each with (R := (shifted_minimum c)).
        * intros m1 m2 i _ Hm. now apply shift_outer_body.
        * repeat split.
      + intros m1 m2 (_ & Hi & Hj). apply rel_run_ret. now rewrite Hi, Hj. }
  apply rel_run_value_of in Hrel.
  destruct Hrel as [(E1 & E2) | (a1 & a2 & <- & E1 & E2)]; now rewrite E1, E2.
Qed.

End Shift.

(** The first pair of least [Q] is unique. *)
Lemma first_least_unique (Qv : nat -> nat -> Q) (P : nat -> nat -> Prop) i j i' j' :
  P i j -> P i' j' ->
  (forall x y, P x y -> (Qv i j <= Qv x y)%Q /\ (before x y i j -> (Qv i j < Qv x y)%Q)) ->
  (forall x y, P x y -> (Qv i' j' <= Qv x y)%Q /\ (before x y i' j' -> (Qv i' j' < Qv x y)%Q)) ->
  i = i' /\ j = j'.
Proof.
  intros HP HP' Hmin Hmin'.
  destruct (Hmin _ _ HP') as (Hle & Hlt).
  destruct (Hmin' _ _ HP) as (Hle' & Hlt').
  assert (Hcases : before i' j' i j \/ before i j i' j' \/ (i = i' /\ j = j'))
    by (unfold before; lia).
  destruct Hcases as [Hb | [Hb | Heq]].
  - specialize (Hlt Hb). lra.
  - specialize (Hlt' Hb). lra.
  - exact Heq.
Qed.

(** On well-shaped rational data the exact run does not depend on what the
    locals held. *)
Lemma nj_minq_cy_exact_assigned n dmq sq g g' :
  2 <= n -> square n dmq -> n <= length sq ->
  nj_minq_cy g (exact_views dmq sq) = nj_minq_cy g' (exact_views dmq sq).
Proof.
  intros Hn Hsq Hlen.
  destruct (nj_minq_cy_exact_first_least n dmq sq g Hn Hsq Hlen) as (i & j & E & Hij & Hmin).
  destruct (nj_minq_cy_exact_first_least n dmq sq g' Hn Hsq Hlen) as (i' & j' & E' & Hij' & Hmin').
  rewrite E, E'.
  destruct (first_least_unique (Qcrit n dmq sq) (fun x y => x < y < n) i j i' j' Hij Hij' Hmin Hmin')
    as (-> & ->).
  reflexivity.
Qed.

(** ** Two nodes *)

Lemma SF_mul_zero prec emax x z :
  IEEE.is_finite x = true -> (exists sgn, z = S754_zero sgn) ->
  exists sgn, SFmul prec emax x z = S754_zero sgn.
Proof.
  intros Hx (sz & ->). destruct x as [sx|sx| |sx mx ex]; try discriminate; simpl; eauto.
Qed.

Lemma SF_zero_sub prec emax z x :
  (exists sgn, z = S754_zero sgn) -> IEEE.is_finite x = true ->
  IEEE.is_finite (SFsub prec emax z x) = true.
Proof.
  intros (sz & ->) Hx. destruct x as [sx|sx| |sx mx ex]; try discriminate; simpl.
  - now destruct sz, sx.
  - reflexivity.
Qed.

Lemma SF_lt_infinity x :
  IEEE.is_finite x = true -> SFltb x (S754_infinity false) = true.
Proof. destruct x; try discriminate; reflexivity. Qed.

Lemma SF_infinity_add prec emax x :
  IEEE.is_finite x = true ->
  SFadd prec emax (S754_infinity false) x = S754_infinity false.
Proof. destruct x; try discriminate; reflexivity. Qed.

#[export] Instance FloatingLaws_float : FloatingLaws c_float float_finite float_zero.
Proof.
  split; unfold float_finite, float_zero.
  - exists false. vm_compute. reflexivity.
  - intros [x] [z]. simpl. apply SF_mul_zero.
  - intros [z] [x]. simpl. apply SF_zero_sub.
  - intros [x]. simpl. apply SF_lt_infinity.
  - intros [x] Hx. cbn [F_add F_INFINITY Floating_float]. unfold lift32.
    cbn [float_bits] in *. f_equal. now apply SF_infinity_add.
Qed.

#[export] Instance FloatingLaws_double : FloatingLaws c_double double_finite double_zero.
Proof.
  split; unfold double_finite, double_zero.
  - exists false. vm_compute. reflexivity.
  - intros [x] [z]. simpl. apply SF_mul_zero.
  - intros [z] [x]. simpl. apply SF_zero_sub.
  - intros [x]. simpl. apply SF_lt_infinity.
  - intros [x] Hx. cbn [F_add F_INFINITY Floating_double]. unfold lift64.
    cbn [double_bits] in *. f_equal. now apply SF_infinity_add.
Qed.

#[export] Instance FloatingLaws_exact : FloatingLaws exact exact_finite exact_zero.
Proof.
  split; unfold exact_finite, exact_zero.
  - eexists. split; [reflexivity|]. reflexivity.
  - intros x z (a & ->) (b & -> & Hb). simpl. eexists. split; [reflexivity|].
    rewrite Hb. ring.
  - intros z x (b & -> & _) (a & ->). simpl. eauto.
  - intros x (a & ->). reflexivity.
  - intros x (a & ->). reflexivity.
Qed.

(** With two rows the only candidate is [(0, 1)], and it beats the initial
    [INFINITY] as soon as the three values read for it are finite. *)
Lemma nj_minq_cy_two_rows {F : Type} `{Floating F} (finite zero : F -> Prop)
    `{!FloatingLaws F finite zero} g (d00 d01 d10 d11 s0 s1 : F) :
  finite d01 -> finite s0 -> finite s1 ->
  nj_minq_cy g (MemViews [[d00; d01]; [d10; d11]] [s0; s1]) =
  Returns ((0%Z, 1%Z), MemViews [[d00; d01]; [d10; d11]] [s0; s1]).
Proof.
  intros Hd Hs0 Hs1.
  unfold nj_minq_cy, bind, shape0. cbn [dm length range Nat.sub seq for_each].
  unfold bind, outer_body, bind, load_sums. cbn [sums nth_error].
  cbn [range Nat.sub Nat.add seq for_each min_q].
  rewrite (INFINITY_add s0 Hs0).
  unfold bind, inner_body, min_q_plus, bind, load_dm, load_sums, entry. cbn [dm sums nth_error fst].
  rewrite lt_INFINITY.
  - reflexivity.
  - apply zero_sub; [|exact Hs1]. apply mul_zero; [exact Hd|]. apply n_minus_2_of_2.
Qed.

(** ** Every element type: the returned pair is assigned in range or not at all *)

(** Two runs on buffers that agree on the first [n] sums and on the strict
    upper triangle, started with the locals holding [g1] and [g2]: either both
    return the same pair [i < j < n], or neither ever assigns its locals. *)
Lemma nj_minq_cy_assigned_or_not {F : Type} `{Floating F} g1 g2 (mv1 mv2 : memviews F) :
  length (dm mv1) = length (dm mv2) ->
  (forall i, i < length (dm mv1) -> nth_error (sums mv1) i = nth_error (sums mv2) i) ->
  (forall i j, i < j < length (dm mv1) -> entry (dm mv1) i j = entry (dm mv2) i j) ->
  rel_run (fun p1 p2 =>
             (p1 = p2 /\ exists i j, i < j < length (dm mv1) /\ p1 = (Z.of_nat i, Z.of_nat j))
             \/ (p1 = g1 /\ p2 = g2))
          mv1 mv2 (nj_minq_cy g1) (nj_minq_cy g2).
Proof.
  intros Hrows Hsums Hupper.
  pose (R := fun m1 m2 : minimum F =>
               min_q m1 = min_q m2 /\
               ((min_i m1 = min_i m2 /\ min_j m1 = min_j m2 /\
                 exists i j, i < j < length (dm mv1) /\
                             min_i m1 = Z.of_nat i /\ min_j m1 = Z.of_nat j)
                \/ ((min_i m1, min_j m1) = g1 /\ (min_i m2, min_j m2) = g2))).
  eapply rel_run_weaken; [|apply (rel_run_nj_minq_cy mv1 mv2) with (R := R)].
  - intros p1 p2 (m1 & m2 & (_ & [(Hi & Hj & i & j & Hij & Ei & Ej) | (E1 & E2)]) & -> & ->).
    + left. split; [now rewrite Hi, Hj|]. exists i, j. now rewrite Ei, Ej.
    + right. auto.
  - exact Hrows.
  - exact Hsums.
  - exact Hupper.
  - intros m1 m2 HR. apply HR.
  - intros q i j Hij. split; [reflexivity|].
    left. cbn [min_i min_j]. repeat split. now exists i, j.
  - split; [reflexivity|]. right. cbn [min_i min_j]. now destruct g1, g2.
Qed.

Lemma nj_minq_cy_same_or_unassigned {F : Type} `{Floating F} g1 g2 (mv1 mv2 : memviews F) :
  length (dm mv1) = length (dm mv2) ->
  (forall i, i < length (dm mv1) -> nth_error (sums mv1) i = nth_error (sums mv2) i) ->
  (forall i j, i < j < length (dm mv1) -> entry (dm mv1) i j = entry (dm mv2) i j) ->
  value_of (nj_minq_cy g1 mv1) = value_of (nj_minq_cy g2 mv2) \/
  (nj_minq_cy g1 mv1 = Returns (g1, mv1) /\ nj_minq_cy g2 mv2 = Returns (g2, mv2)).
Proof.
  intros Hrows Hsums Hupper.
  destruct (rel_run_value_of _ _ _ _ _
              (nj_minq_cy_assigned_or_not g1 g2 mv1 mv2 Hrows Hsums Hupper))
    as [(E1 & E2) | (p1 & p2 & [(-> & _) | (-> & ->)] & E1 & E2)].
  - left. now rewrite E1, E2.
  - left. now rewrite E1, E2.
  - right. auto.
Qed.

(** ** Every element type: the first candidate *)

Section FirstCandidate.

Context {F : Type} `{Floating F}.
Variable d : nat -> nat -> F.
Variable s : nat -> F.
Variable n : nat.

Lemma inner_fold_assigned n_2 i j st :
  i < j < n -> assigned n (snd st) ->
  assigned n (snd (inner_fold d s n_2 i st j)).
Proof.
  intros Hij Hst. unfold inner_fold, min_q_plus. destruct (F_lt _ (fst st)).
  - exists i, j. cbn [snd min_i min_j]. auto.
  - exact Hst.
Qed.

Lemma inner_loop_assigned n_2 i l :
  forall st, (forall j, In j l -> i < j < n) -> assigned n (snd st) ->
  assigned n (snd (fold_left (inner_fold d s n_2 i) l st)).
Proof.
  induction l as [|j l IH]; intros st Hl Hst; simpl.
  - exact Hst.
  - apply IH.
    + intros j' Hin. apply Hl. now right.
    + apply inner_fold_assigned; [|exact Hst]. apply Hl. now left.
Qed.

Lemma outer_fold_assigned n_2 i m :
  assigned n m -> assigned n (outer_fold d s n n_2 m i).
Proof.
  intros Hm. unfold outer_fold. apply inner_loop_assigned; [|exact Hm].
  intros j Hin. unfold range in Hin. apply in_seq in Hin. lia.
Qed.

Lemma outer_loop_assigned n_2 l :
  forall m, assigned n m -> assigned n (fold_left (outer_fold d s n n_2) l m).
Proof.
  induction l as [|i l IH]; intros m Hm; simpl.
  - exact Hm.
  - apply IH. now apply outer_fold_assigned.
Qed.

(** If the candidate [(0, 1)] passes the first comparison, the scan ends
    with a pair [i < j < n] in the locals. *)
Lemma scan_fold_first_candidate g :
  2 <= n ->
  F_lt (F_sub (F_mul (d 0 1) (F_n_minus_2 n)) (s 1)) (F_add F_INFINITY (s 0)) = true ->
  assigned n (scan_fold d s n g).
Proof.
  intros Hn Hlt. unfold scan_fold, range.
  destruct n as [|[|k]] eqn:En; [lia|lia|]. rewrite <- En in *.
  replace (n - 0) with (S (n - 1)) by lia. cbn [seq fold_left].
  apply outer_loop_assigned.
  unfold outer_fold at 1. unfold range.
  replace (n - (0 + 1)) with (S (n - 2)) by lia. cbn [Nat.add seq fold_left].
  apply inner_loop_assigned.
  - intros j Hin. apply in_seq in Hin. lia.
  - unfold inner_fold, min_q_plus. cbn [fst min_q]. rewrite Hlt.
    exists 0, 1. cbn [snd min_i min_j]. split; [lia|auto].
Qed.

End FirstCandidate.

(** On buffers of the right shape, whatever the element type: when the
    values read for the candidate [(0, 1)] are finite and so is its
    [q_plus], the call returns a pair [0 <= i < j < n]. *)
Lemma nj_minq_cy_first_candidate {F : Type} `{Floating F} (finite zero : F -> Prop)
    `{!FloatingLaws F finite zero} (d : nat -> nat -> F) (s : nat -> F) mv n g :
  reads d s mv n -> 2 <= n ->
  finite (s 0) ->
  finite (F_sub (F_mul (d 0 1) (F_n_minus_2 n)) (s 1)) ->
  exists i j,
    nj_minq_cy g mv = Returns ((Z.of_nat i, Z.of_nat j), mv) /\ i < j < n.
Proof.
  intros Hreads Hn Hs0 Hq.
  destruct (scan_fold_first_candidate d s n g Hn) as (i & j & Hij & Ei & Ej).
  - rewrite (INFINITY_add (s 0) Hs0). now apply lt_INFINITY.
  - exists i, j. split; [|exact Hij].
    rewrite (nj_minq_cy_fold d s mv n Hreads g). now rewrite Ei, Ej.
Qed.

(** Entries of [sums] past the number of rows are never read. *)
Lemma nj_minq_cy_extra_sums {F : Type} `{Floating F} g (a : list (list F)) (s extra : list F) :
  length a <= length s ->
  value_of (nj_minq_cy g (MemViews a (s ++ extra))) =
  value_of (nj_minq_cy g (MemViews a s)).
Proof.
  intros Hlen.
  destruct (nj_minq_cy_same_or_unassigned g g (MemViews a (s ++ extra)) (MemViews a s))
    as [E | (E1 & E2)].
  - reflexivity.
  - intros i Hi. cbn [dm sums] in *. apply nth_error_app1. lia.
  - intros i j _. reflexivity.
  - exact E.
  - now rewrite E1, E2.
Qed.

(** ** Runs that stay inside the views *)

Section Reads.

Context {F : Type} `{Floating F}.

Lemma reads_in_bounds (dflt : F) (mv : memviews F) :
  in_bounds mv ->
  reads (entry_or dflt (dm mv)) (nth_or dflt (sums mv)) mv (length (dm mv)).
Proof.
  intros (Hlen & Hent). split; [reflexivity|]. split.
  - intros i j Hij. unfold load_dm, entry_or.
    specialize (Hent i j Hij). destruct (entry (dm mv) i j); [reflexivity|contradiction].
  - intros i Hi. unfold load_sums, nth_or.
    destruct (nth_error (sums mv) i) eqn:E; [reflexivity|].
    apply nth_error_None in E. lia.
Qed.

End Reads.

Lemma in_bounds_three_taxa_f64 : in_bounds (MemViews three_taxa_f64 three_taxa_sums_f64).
Proof.
  split; [simpl; lia|].
  intros i j Hij. cbn [dm length three_taxa_f64 map] in Hij.
  destruct i as [|[|i]]; destruct j as [|[|[|j]]]; try lia; discriminate.
Qed.

(** Two runs, the first of which stays inside its views, on buffers that
    agree on the first [n] sums and at every [i < j < n], with the locals
    holding [g1] and [g2]: both return the same pair [i < j < n], or each
    returns what its locals held. *)
Lemma nj_minq_cy_in_bounds_agree {F : Type} `{Floating F} g1 g2 (mv1 mv2 : memviews F) :
  in_bounds mv1 ->
  length (dm mv1) = length (dm mv2) ->
  (forall i, i < length (dm mv1) -> nth_error (sums mv1) i = nth_error (sums mv2) i) ->
  (forall i j, i < j < length (dm mv1) -> entry (dm mv1) i j = entry (dm mv2) i j) ->
  (exists i j, i < j < length (dm mv1) /\
     nj_minq_cy g1 mv1 = Returns ((Z.of_nat i, Z.of_nat j), mv1) /\
     nj_minq_cy g2 mv2 = Returns ((Z.of_nat i, Z.of_nat j), mv2)) \/
  (nj_minq_cy g1 mv1 = Returns (g1, mv1) /\ nj_minq_cy g2 mv2 = Returns (g2, mv2)).
Proof.
  intros Hb Hrows Hsums Hupper.
  destruct (rel_run_value_of _ _ _ _ _
              (nj_minq_cy_assigned_or_not g1 g2 mv1 mv2 Hrows Hsums Hupper))
    as [(E1 & _) | (p1 & p2 & [(<- & i & j & Hij & ->) | (-> & ->)] & E1 & E2)].
  - rewrite (nj_minq_cy_fold _ _ _ _ (reads_in_bounds F_INFINITY mv1 Hb) g1) in E1.
    discriminate.
  - left. exists i, j. auto.
  - right. auto.
Qed.

(** ** Every element type: once the first candidate has passed *)

Section FirstCandidateAgain.

Context {F : Type} `{Floating F}.
Variable d : nat -> nat -> F.
Variable s : nat -> F.

(** Once the candidate [(0, 1)] has passed, nothing is left of what the
    locals held. *)
Lemma scan_fold_first_candidate_eq n g g' :
  2 <= n ->
  F_lt (F_sub (F_mul (d 0 1) (F_n_minus_2 n)) (s 1)) (F_add F_INFINITY (s 0)) = true ->
  scan_fold d s n g = scan_fold d s n g'.
Proof.
  intros Hn Hlt. unfold scan_fold, range.
  destruct n as [|[|k]]; [lia|lia|].
  cbn [Nat.sub seq fold_left]. f_equal.
  unfold outer_fold, range. cbn [Nat.add Nat.sub seq fold_left]. do 2 f_equal.
  unfold inner_fold, min_q_plus. cbn [fst min_q]. rewrite Hlt. reflexivity.
Qed.

End FirstCandidateAgain.

Lemma nj_minq_cy_first_candidate_any {F : Type} `{Floating F} (finite zero : F -> Prop)
    `{!FloatingLaws F finite zero} (mv : memviews F) (d01 s0 s1 : F) :
  in_bounds mv -> 2 <= length (dm mv) ->
  entry (dm mv) 0 1 = Some d01 ->
  nth_error (sums mv) 0 = Some s0 -> nth_error (sums mv) 1 = Some s1 ->
  finite s0 ->
  finite (F_sub (F_mul d01 (F_n_minus_2 (length (dm mv)))) s1) ->
  exists i j, i < j < length (dm mv) /\
    forall g, nj_minq_cy g mv = Returns ((Z.of_nat i, Z.of_nat j), mv).
Proof.
  intros Hb Hn Ed Es0 Es1 Hs0 Hq.
  pose proof (reads_in_bounds F_INFINITY mv Hb) as Hreads.
  assert (Hlt : F_lt (F_sub (F_mul (entry_or F_INFINITY (dm mv) 0 1)
                                   (F_n_minus_2 (length (dm mv))))
                            (nth_or F_INFINITY (sums mv) 1))
                     (F_add F_INFINITY (nth_or F_INFINITY (sums mv) 0)) = true).
  { unfold entry_or, nth_or. rewrite Ed, Es0, Es1.
    rewrite (INFINITY_add s0 Hs0). now apply lt_INFINITY. }
  destruct (scan_fold_first_candidate _ _ _ (0, 0)%Z Hn Hlt) as (i & j & Hij & Ei & Ej).
  exists i, j. split; [exact Hij|]. intros g.
  rewrite (nj_minq_cy_fold _ _ _ _ Hreads g).
  rewrite (scan_fold_first_candidate_eq _ _ _ g (0, 0)%Z Hn Hlt).
  now rewrite Ei, Ej.
Qed.

(** ** Every element type: data on which no comparison succeeds *)

Section NoCandidate.

Context {F : Type} `{Floating F}.
Variable d : nat -> nat -> F.
Variable s : nat -> F.
Variable n : nat.
Variable n_2 : F.
Hypothesis Hnever : forall i j, i < j < n ->
  forall x, F_lt (F_sub (F_mul (d i j) n_2) (s j)) x = false.

Lemma inner_loop_no_candidate i l :
  forall st, (forall j, In j l -> i < j < n) ->
  fold_left (inner_fold d s n_2 i) l st = st.
Proof.
  induction l as [|j l IH]; intros st Hl; simpl; [reflexivity|].
  unfold inner_fold at 2. rewrite (Hnever i j) by (apply Hl; now left).
  apply IH. intros j' Hin. apply Hl. now right.
Qed.

Lemma outer_fold_no_candidate m i : outer_fold d s n n_2 m i = m.
Proof.
  unfold outer_fold. rewrite inner_loop_no_candidate; [reflexivity|].
  intros j Hin. unfold range in Hin. apply in_seq in Hin. lia.
Qed.

Lemma outer_loop_no_candidate l : forall m, fold_left (outer_fold d s n n_2) l m = m.
Proof.
  induction l as [|i l IH]; intros m; simpl; [reflexivity|].
  rewrite outer_fold_no_candidate. apply IH.
Qed.

End NoCandidate.

Lemma nj_minq_cy_no_candidate {F : Type} `{Floating F} (mv : memviews F) :
  in_bounds mv ->
  (forall i j x y, i < j < length (dm mv) ->
     entry (dm mv) i j = Some x -> nth_error (sums mv) j = Some y ->
     forall z, F_lt (F_sub (F_mul x (F_n_minus_2 (length (dm mv)))) y) z = false) ->
  forall g, nj_minq_cy g mv = Returns (g, mv).
Proof.
  intros Hb Hnever g.
  rewrite (nj_minq_cy_fold _ _ _ _ (reads_in_bounds F_INFINITY mv Hb) g).
  unfold scan_fold. rewrite outer_loop_no_candidate.
  - now destruct g.
  - intros i j Hij z. unfold entry_or, nth_or.
    destruct Hb as (Hlen & Hent). specialize (Hent i j Hij).
    destruct (entry (dm mv) i j) as [x|] eqn:Ex; [|contradiction].
    destruct (nth_error (sums mv) j) as [y|] eqn:Ey.
    + now apply (Hnever i j x y).
    + apply nth_error_None in Ey. lia.
Qed.

Lemma SF_nan_candidate prec emax x n_2 y z :
  x = S754_nan \/ y = S754_nan ->
  SFltb (SFsub prec emax (SFmul prec emax x n_2) y) z = false.
Proof.
  intros [-> | ->].
  - replace (SFmul prec emax S754_nan n_2) with S754_nan by now destruct n_2.
    replace (SFsub prec emax S754_nan y) with S754_nan by now destruct y.
    reflexivity.
  - replace (SFsub prec emax (SFmul prec emax x n_2) S754_nan) with S754_nan
      by now destruct (SFmul prec emax x n_2).
    reflexivity.
Qed.

(** ** Binary32: an input on which every product overflows *)



Section Overflow.

Variable n : nat.
Variable x : c_float.







End Overflow.








(** * The claims *)

(** ** C1 *)

(** C1, as amended: in exact arithmetic, on an [n x n] matrix with [n >= 2]
    and [n] sums, all finite, [nj_minq_cy] returns a pair [i < j < n] whose
    [Q(i, j) = (n - 2) d(i, j) - sums[i] - sums[j]] is less than or equal to
    [Q(a, b)] for every pair [a < b < n].  Symmetry, the zero diagonal and
    the agreement of [sums] with the row sums are not needed. *)
Theorem nj_minq_cy_exact_minimum n dmq sq g :
  2 <= n -> square n dmq -> length sq = n ->
  exists i j,
    nj_minq_cy g (exact_views dmq sq) =
      Returns ((Z.of_nat i, Z.of_nat j), exact_views dmq sq) /\
    i < j < n /\
    forall a b, a < b < n -> (Qcrit n dmq sq i j <= Qcrit n dmq sq a b)%Q.
Proof.
  intros Hn Hsq Hlen.
  destruct (nj_minq_cy_exact_first_least n dmq sq g Hn Hsq) as (i & j & E & Hij & Hmin);
    [lia|].
  exists i, j. split; [exact E|]. split; [exact Hij|].
  intros a b Hab. now apply Hmin.
Qed.

Lemma square_three_taxa : square 3 three_taxa_dm.
Proof. split; [reflexivity|]. repeat constructor. Qed.

Lemma nj_minq_cy_exact_minimum_witness :
  exists i j,
    nj_minq_cy (0, 0)%Z (exact_views three_taxa_dm three_taxa_sums) =
      Returns ((Z.of_nat i, Z.of_nat j), exact_views three_taxa_dm three_taxa_sums) /\
    i < j < 3 /\
    forall a b, a < b < 3 ->
      (Qcrit 3 three_taxa_dm three_taxa_sums i j <=
       Qcrit 3 three_taxa_dm three_taxa_sums a b)%Q.
Proof.
  apply (nj_minq_cy_exact_minimum 3 three_taxa_dm three_taxa_sums (0, 0)%Z).
  - lia.
  - exact square_three_taxa.
  - reflexivity.
Defined.

(** C1, as stated, fails in binary64: on the symmetric zero-diagonal matrix
    [rounding_dm] with its exactly representable row sums [rounding_sums]
    the call returns [(0, 2)], while [Q(0, 3) < Q(0, 2)], both when [Q] is
    evaluated in binary64 and when it is evaluated over the rationals. *)
Lemma nj_minq_cy_minimum_rounding_counterexample :
  Double.symmetricb 4 rounding_dm = true /\
  Double.zero_diagonalb 4 rounding_dm = true /\
  Double.row_sumsb rounding_dm rounding_sums = true /\
  Double.rational_row_sumsb rounding_dm rounding_sums = true /\
  forallb (forallb Double.finiteb) rounding_dm = true /\
  forallb Double.finiteb rounding_sums = true /\
  nj_minq_cy (-1, -1)%Z (MemViews rounding_dm rounding_sums) =
    Returns ((0, 2)%Z, MemViews rounding_dm rounding_sums) /\
  F_lt (Double.Q_at 4 rounding_dm rounding_sums 0 3)
       (Double.Q_at 4 rounding_dm rounding_sums 0 2) = true /\
  (Qcrit 4 (map (map Double.to_Q) rounding_dm) (map Double.to_Q rounding_sums) 0 3 <
   Qcrit 4 (map (map Double.to_Q) rounding_dm) (map Double.to_Q rounding_sums) 0 2)%Q.
Proof. repeat split; vm_compute; reflexivity. Qed.

(** ** C2 *)

(** C2, as amended: in exact arithmetic, on an [n x n] matrix with [n >= 2]
    and [n] sums, all finite, ties included, [nj_minq_cy] returns the first
    pair attaining the minimum of [Q] in the scan order [i = 0 .. n-1],
    [j = i+1 .. n-1]: no pair has a smaller [Q], and every pair scanned
    before the returned one has a strictly greater [Q]. *)
Theorem nj_minq_cy_exact_first_minimum n dmq sq g :
  2 <= n -> square n dmq -> length sq = n ->
  exists i j,
    nj_minq_cy g (exact_views dmq sq) =
      Returns ((Z.of_nat i, Z.of_nat j), exact_views dmq sq) /\
    i < j < n /\
    forall a b, a < b < n ->
      (Qcrit n dmq sq i j <= Qcrit n dmq sq a b)%Q /\
      (before a b i j -> (Qcrit n dmq sq i j < Qcrit n dmq sq a b)%Q).
Proof.
  intros Hn Hsq Hlen.
  apply (nj_minq_cy_exact_first_least n dmq sq g Hn Hsq). lia.
Qed.

Lemma nj_minq_cy_exact_first_minimum_witness :
  exists i j,
    nj_minq_cy (0, 0)%Z (exact_views three_taxa_dm three_taxa_sums) =
      Returns ((Z.of_nat i, Z.of_nat j), exact_views three_taxa_dm three_taxa_sums) /\
    i < j < 3 /\
    forall a b, a < b < 3 ->
      (Qcrit 3 three_taxa_dm three_taxa_sums i j <=
       Qcrit 3 three_taxa_dm three_taxa_sums a b)%Q /\
      (before a b i j ->
       (Qcrit 3 three_taxa_dm three_taxa_sums i j <
        Qcrit 3 three_taxa_dm three_taxa_sums a b)%Q).
Proof.
  apply (nj_minq_cy_exact_first_minimum 3 three_taxa_dm three_taxa_sums (0, 0)%Z).
  - lia.
  - exact square_three_taxa.
  - reflexivity.
Defined.

(** C2, as stated, fails in binary64: on [tie_dm] with its exactly
    representable row sums [tie_sums] every [Q] value is computed without
    rounding, the pairs [(0, 2)] and [(1, 3)] tie for the minimum, and the
    call returns the later one, [(1, 3)]. *)
Lemma nj_minq_cy_first_pair_rounding_counterexample :
  Double.symmetricb 4 tie_dm = true /\
  Double.zero_diagonalb 4 tie_dm = true /\
  Double.row_sumsb tie_dm tie_sums = true /\
  Double.rational_row_sumsb tie_dm tie_sums = true /\
  forallb (forallb Double.finiteb) tie_dm = true /\
  forallb Double.finiteb tie_sums = true /\
  nj_minq_cy (-1, -1)%Z (MemViews tie_dm tie_sums) =
    Returns ((1, 3)%Z, MemViews tie_dm tie_sums) /\
  before 0 2 1 3 /\
  Double.eqb (Double.Q_at 4 tie_dm tie_sums 0 2) (Double.Q_at 4 tie_dm tie_sums 1 3) = true /\
  forallb (fun p => negb (F_lt (Double.Q_at 4 tie_dm tie_sums (fst p) (snd p))
                               (Double.Q_at 4 tie_dm tie_sums 0 2))) pairs4 = true /\
  (Qcrit 4 (map (map Double.to_Q) tie_dm) (map Double.to_Q tie_sums) 0 2 ==
   Qcrit 4 (map (map Double.to_Q) tie_dm) (map Double.to_Q tie_sums) 1 3)%Q /\
  forallb (fun p => Qeq_bool (Double.to_Q (Double.Q_at 4 tie_dm tie_sums (fst p) (snd p)))
                             (Qcrit 4 (map (map Double.to_Q) tie_dm) (map Double.to_Q tie_sums)
                                    (fst p) (snd p))) pairs4 = true.
Proof.
  repeat split; try (vm_compute; reflexivity).
  unfold before. lia.
Qed.

(** ** C3 *)

(** C3, as amended: [nj_minq_cy] validates neither the dimension nor the
    length of [sums], and nothing in it raises an error.  With fewer than
    two rows and a sum vector at least as long as the matrix has rows, no
    pair is ever compared and the call returns [min_i], [min_j] as they
    were, never assigned.  A sum vector longer than the matrix has rows is
    accepted, and its surplus entries do not change the result. *)
Theorem nj_minq_cy_unchecked {F : Type} `{Floating F} g (mv : memviews F) :
  (length (dm mv) < 2 -> length (dm mv) <= length (sums mv) ->
   nj_minq_cy g mv = Returns (g, mv)) /\
  (forall extra, length (dm mv) <= length (sums mv) ->
   value_of (nj_minq_cy g (MemViews (dm mv) (sums mv ++ extra))) =
   value_of (nj_minq_cy g mv)).
Proof.
  split.
  - apply nj_minq_cy_no_pair.
  - intros extra Hlen. destruct mv as [a s]. now apply nj_minq_cy_extra_sums.
Qed.

Lemma nj_minq_cy_unchecked_witness :
  nj_minq_cy (-1, -1)%Z (MemViews one_node_f64 one_node_sums_f64) =
    Returns ((-1, -1)%Z, MemViews one_node_f64 one_node_sums_f64) /\
  value_of (nj_minq_cy (-1, -1)%Z
              (MemViews three_taxa_f64 (three_taxa_sums_f64 ++ [Double.lit 99 0]))) =
  value_of (nj_minq_cy (-1, -1)%Z (MemViews three_taxa_f64 three_taxa_sums_f64)).
Proof.
  split.
  - apply (proj1 (nj_minq_cy_unchecked (-1, -1)%Z
                    (MemViews one_node_f64 one_node_sums_f64))).
    + simpl. lia.
    + simpl. lia.
  - apply (proj2 (nj_minq_cy_unchecked (-1, -1)%Z
                    (MemViews three_taxa_f64 three_taxa_sums_f64))
             [Double.lit 99 0]).
    simpl. lia.
Defined.

(** C3, as stated, fails: a call whose sum vector is longer than the
    matrix has rows returns a pair, and so does a call on a single node. *)
Lemma nj_minq_cy_unchecked_counterexample :
  length four_sums_f64 <> length three_taxa_f64 /\
  nj_minq_cy (-1, -1)%Z (MemViews three_taxa_f64 four_sums_f64) =
    Returns ((0, 1)%Z, MemViews three_taxa_f64 four_sums_f64) /\
  length one_node_f64 < 2 /\
  nj_minq_cy (-1, -1)%Z (MemViews one_node_f64 one_node_sums_f64) =
    Returns ((-1, -1)%Z, MemViews one_node_f64 one_node_sums_f64).
Proof.
  split; [simpl; lia|].
  split; [vm_compute; reflexivity|].
  split; [simpl; lia|].
  vm_compute. reflexivity.
Qed.

(** ** C4 *)




(** ** C5 *)

(** C5: a call of [nj_minq_cy] only reads [dm] and [sums]: whenever it
    returns, both buffers hold what they held before the call; the only
    other outcome is a run that has read outside the shape of a view. *)
Theorem nj_minq_cy_no_side_effect {F : Type} `{Floating F} g (mv : memviews F) :
  nj_minq_cy g mv = OutOfBounds \/
  exists ij, nj_minq_cy g mv = Returns (ij, mv).
Proof.
  destruct (nj_minq_cy g mv) as [[ij mv']|] eqn:E.
  - right. exists ij. now rewrite (read_only_nj_minq_cy g mv ij mv' E).
  - now left.
Qed.

(** ** C6 *)

(** C6, as amended: two calls of [nj_minq_cy] on equal inputs return the
    same pair, or both read outside the shape of a view, unless no candidate
    ever passes the comparison [q_plus < min_q_plus]; in that case each
    call returns what its never-assigned locals [min_i], [min_j] happened
    to hold.  This holds for every element type. *)
Theorem nj_minq_cy_reproducible {F : Type} `{Floating F} g1 g2 (mv : memviews F) :
  value_of (nj_minq_cy g1 mv) = value_of (nj_minq_cy g2 mv) \/
  (nj_minq_cy g1 mv = Returns (g1, mv) /\ nj_minq_cy g2 mv = Returns (g2, mv)).
Proof.
  apply nj_minq_cy_same_or_unassigned.
  - reflexivity.
  - intros i _. reflexivity.
  - intros i j _. reflexivity.
Qed.

(** C6, as stated, fails: on a single node the two loops compare nothing,
    and two calls on the same buffers return two different pairs when the
    locals start with different contents. *)
Lemma nj_minq_cy_reproducible_counterexample :
  value_of (nj_minq_cy (0, 0)%Z (MemViews one_node_f64 one_node_sums_f64)) =
    Returns (0, 0)%Z /\
  value_of (nj_minq_cy (7, 5)%Z (MemViews one_node_f64 one_node_sums_f64)) =
    Returns (7, 5)%Z /\
  value_of (nj_minq_cy (0, 0)%Z (MemViews one_node_f64 one_node_sums_f64)) <>
  value_of (nj_minq_cy (7, 5)%Z (MemViews one_node_f64 one_node_sums_f64)).
Proof.
  split; [vm_compute; reflexivity|].
  split; [vm_compute; reflexivity|].
  vm_compute. discriminate.
Qed.

(** ** C8 *)

(** C8, as amended: the result of [nj_minq_cy] depends only on the strict
    upper triangle of [dm] and on [sums].  Take two matrices with the same
    number [n] of rows and the same entries at every [i < j], the same
    [sums], and shapes that cover every read of the scan (as those of an
    [n x n] matrix with [n] sums do): the two calls return the same pair
    [i < j < n], unless no candidate ever passes the comparison
    [q_plus < min_q_plus]; in that case each call returns what its own
    never-assigned locals [min_i], [min_j] happened to hold.  The diagonal
    and the lower triangle are never read.  This holds for every element
    type and every dimension. *)
Theorem nj_minq_cy_reads_upper_triangle {F : Type} `{Floating F} g g'
    (dm1 dm2 : list (list F)) (s : list F) :
  in_bounds (MemViews dm1 s) ->
  length dm1 = length dm2 ->
  (forall i j, i < j -> entry dm1 i j = entry dm2 i j) ->
  (exists i j, i < j < length dm1 /\
     nj_minq_cy g (MemViews dm1 s) = Returns ((Z.of_nat i, Z.of_nat j), MemViews dm1 s) /\
     nj_minq_cy g' (MemViews dm2 s) = Returns ((Z.of_nat i, Z.of_nat j), MemViews dm2 s)) \/
  (nj_minq_cy g (MemViews dm1 s) = Returns (g, MemViews dm1 s) /\
   nj_minq_cy g' (MemViews dm2 s) = Returns (g', MemViews dm2 s)).
Proof.
  intros Hb Hrows Hupper.
  apply (nj_minq_cy_in_bounds_agree g g' (MemViews dm1 s) (MemViews dm2 s) Hb Hrows).
  - intros i _. reflexivity.
  - intros i j Hij. apply Hupper. lia.
Qed.

Lemma nj_minq_cy_reads_upper_triangle_witness :
  (exists i j, i < j < 3 /\
     nj_minq_cy (-1, -1)%Z (MemViews three_taxa_f64 three_taxa_sums_f64) =
       Returns ((Z.of_nat i, Z.of_nat j), MemViews three_taxa_f64 three_taxa_sums_f64) /\
     nj_minq_cy (7, 5)%Z (MemViews three_taxa_upper_f64 three_taxa_sums_f64) =
       Returns ((Z.of_nat i, Z.of_nat j), MemViews three_taxa_upper_f64 three_taxa_sums_f64)) \/
  (nj_minq_cy (-1, -1)%Z (MemViews three_taxa_f64 three_taxa_sums_f64) =
     Returns ((-1, -1)%Z, MemViews three_taxa_f64 three_taxa_sums_f64) /\
   nj_minq_cy (7, 5)%Z (MemViews three_taxa_upper_f64 three_taxa_sums_f64) =
     Returns ((7, 5)%Z, MemViews three_taxa_upper_f64 three_taxa_sums_f64)).
Proof.
  apply (nj_minq_cy_reads_upper_triangle (-1, -1)%Z (7, 5)%Z
           three_taxa_f64 three_taxa_upper_f64 three_taxa_sums_f64).
  - exact in_bounds_three_taxa_f64.
  - reflexivity.
  - intros i j Hij.
    destruct i as [|[|[|i]]]; destruct j as [|[|[|j]]]; try lia; try reflexivity;
      try (destruct j; reflexivity); destruct i; reflexivity.
Defined.

(** C8, as stated, fails: two 3 x 3 matrices with the same strict upper
    triangle, scanned with the same sums, all of them NaN.  Every
    comparison is false, the locals are never assigned, and the two calls
    return two different pairs when their locals start with different
    contents. *)
Lemma nj_minq_cy_reads_upper_triangle_counterexample :
  2 <= length three_taxa_f64 /\
  has_shape 3 3 three_taxa_f64 = true /\
  has_shape 3 3 three_taxa_upper_f64 = true /\
  length nan_sums_f64 = 3 /\
  (forall i j, i < j -> entry three_taxa_f64 i j = entry three_taxa_upper_f64 i j) /\
  nj_minq_cy (0, 0)%Z (MemViews three_taxa_f64 nan_sums_f64) =
    Returns ((0, 0)%Z, MemViews three_taxa_f64 nan_sums_f64) /\
  nj_minq_cy (7, 5)%Z (MemViews three_taxa_upper_f64 nan_sums_f64) =
    Returns ((7, 5)%Z, MemViews three_taxa_upper_f64 nan_sums_f64) /\
  value_of (nj_minq_cy (0, 0)%Z (MemViews three_taxa_f64 nan_sums_f64)) <>
  value_of (nj_minq_cy (7, 5)%Z (MemViews three_taxa_upper_f64 nan_sums_f64)).
Proof.
  split; [simpl; lia|].
  split; [reflexivity|].
  split; [reflexivity|].
  split; [reflexivity|].
  split.
  { intros i j Hij.
    destruct i as [|[|[|i]]]; destruct j as [|[|[|j]]]; try lia; try reflexivity;
      try (destruct j; reflexivity); destruct i; reflexivity. }
  split; [vm_compute; reflexivity|].
  split; [vm_compute; reflexivity|].
  vm_compute. discriminate.
Qed.

(** ** C9 *)

(** C9: on two nodes with all entries of [dm] and [sums] finite, in
    binary32 and in binary64 alike, [nj_minq_cy] returns [(0, 1)] whatever
    the matrix and the sums hold, and whatever the locals held. *)
Theorem nj_minq_cy_two_nodes g :
  (forall (a : list (list c_float)) (s : list c_float),
      has_shape 2 2 a = true -> length s = 2 ->
      forallb (forallb (fun x => IEEE.is_finite (float_bits x))) a = true ->
      forallb (fun x => IEEE.is_finite (float_bits x)) s = true ->
      nj_minq_cy g (MemViews a s) = Returns ((0, 1)%Z, MemViews a s)) /\
  (forall (a : list (list c_double)) (s : list c_double),
      has_shape 2 2 a = true -> length s = 2 ->
      forallb (forallb (fun x => IEEE.is_finite (double_bits x))) a = true ->
      forallb (fun x => IEEE.is_finite (double_bits x)) s = true ->
      nj_minq_cy g (MemViews a s) = Returns ((0, 1)%Z, MemViews a s)).
Proof.
  split; intros a s Hshape Hlen Hfd Hfs;
    unfold has_shape in Hshape;
    destruct a as [|[|d00 [|d01 [|? ?]]] [|[|d10 [|d11 [|? ?]]] [|? ?]]]; try discriminate;
    destruct s as [|s0 [|s1 [|? ?]]]; try discriminate;
    simpl in Hfd, Hfs;
    repeat match goal with
           | Hc : _ && _ = true |- _ => apply andb_prop in Hc; destruct Hc
           end.
  - apply (nj_minq_cy_two_rows float_finite float_zero g d00 d01 d10 d11 s0 s1);
      assumption.
  - apply (nj_minq_cy_two_rows double_finite double_zero g d00 d01 d10 d11 s0 s1);
      assumption.
Qed.

Lemma nj_minq_cy_two_nodes_witness :
  nj_minq_cy (-1, -1)%Z (MemViews two_nodes_f32 two_nodes_sums_f32) =
    Returns ((0, 1)%Z, MemViews two_nodes_f32 two_nodes_sums_f32) /\
  nj_minq_cy (-1, -1)%Z (MemViews two_nodes_f64 two_nodes_sums_f64) =
    Returns ((0, 1)%Z, MemViews two_nodes_f64 two_nodes_sums_f64).
Proof.
  split.
  - apply (proj1 (nj_minq_cy_two_nodes (-1, -1)%Z) two_nodes_f32 two_nodes_sums_f32);
      reflexivity.
  - apply (proj2 (nj_minq_cy_two_nodes (-1, -1)%Z) two_nodes_f64 two_nodes_sums_f64);
      reflexivity.
Defined.

(** ** C10 *)

(** C10: in exact arithmetic, on an [n x n] matrix with [n >= 2] and [n]
    sums, all finite, adding one constant [c] to every entry of [sums]
    does not change the pair [nj_minq_cy] returns. *)
Theorem nj_minq_cy_exact_shift_invariant n dmq sq c g g' :
  2 <= n -> square n dmq -> length sq = n ->
  value_of (nj_minq_cy g (exact_views dmq (shift_sums c sq))) =
  value_of (nj_minq_cy g' (exact_views dmq sq)).
Proof.
  intros Hn Hsq Hlen.
  rewrite shift_nj_minq_cy.
  rewrite (nj_minq_cy_exact_assigned n dmq sq g g' Hn Hsq); [reflexivity|lia].
Qed.

Lemma nj_minq_cy_exact_shift_invariant_witness :
  value_of (nj_minq_cy (-1, -1)%Z
              (exact_views three_taxa_dm (shift_sums (7 # 2) three_taxa_sums))) =
  value_of (nj_minq_cy (0, 0)%Z (exact_views three_taxa_dm three_taxa_sums)).
Proof.
  apply (nj_minq_cy_exact_shift_invariant 3 three_taxa_dm three_taxa_sums (7 # 2)
           (-1, -1)%Z (0, 0)%Z).
  - lia.
  - exact square_three_taxa.
  - reflexivity.
Defined.

(** * Further properties of [nj_minq_cy] *)

(** ** The pair that comes back *)

(** X1: whatever the element type and the data, a call of [nj_minq_cy]
    that returns gives back either what the locals [min_i], [min_j] held
    before the call or a pair [(i, j)] with [i < j < n]: an index outside
    the matrix is never produced by the scan itself. *)
Theorem nj_minq_cy_in_range_or_unassigned {F : Type} `{Floating F} g (mv : memviews F) :
  nj_minq_cy g mv = OutOfBounds \/
  nj_minq_cy g mv = Returns (g, mv) \/
  exists i j, i < j < length (dm mv) /\
              nj_minq_cy g mv = Returns ((Z.of_nat i, Z.of_nat j), mv).
Proof.
  destruct (rel_run_value_of _ _ _ _ _
              (nj_minq_cy_assigned_or_not g g mv mv eq_refl
                 (fun i _ => eq_refl) (fun i j _ => eq_refl)))
    as [(E & _) | (p1 & p2 & [(_ & i & j & Hij & ->) | (-> & _)] & E & _)].
  - now left.
  - right. right. now exists i, j.
  - right. now left.
Qed.

(** ** The reads of a run *)

(** X2: when [sums] has an entry for each of the [n] rows of [dm] and each
    row [i] has an entry at every column [j] with [i < j < n], as on an
    [n x n] matrix with [n] sums, every read of the two loops lies inside
    the shapes of the views, although bounds checking is off; the call
    returns a pair or the locals as they were, and the buffers are as
    before. *)
Theorem nj_minq_cy_memory_safe {F : Type} `{Floating F} g (mv : memviews F) :
  in_bounds mv -> exists ij, nj_minq_cy g mv = Returns (ij, mv).
Proof.
  intros Hb. eexists.
  exact (nj_minq_cy_fold _ _ _ _ (reads_in_bounds F_INFINITY mv Hb) g).
Qed.

Lemma nj_minq_cy_memory_safe_witness :
  exists ij, nj_minq_cy (-1, -1)%Z (MemViews three_by_four_f64 four_sums_f64) =
             Returns (ij, MemViews three_by_four_f64 four_sums_f64).
Proof.
  apply (nj_minq_cy_memory_safe (-1, -1)%Z (MemViews three_by_four_f64 four_sums_f64)).
  split; [simpl; lia|].
  intros i j Hij. cbn [dm length three_by_four_f64 map] in Hij.
  destruct i as [|[|i]]; destruct j as [|[|[|j]]]; try lia; discriminate.
Defined.

(** ** What a run reads decides its result *)

(** X3: on buffers whose shapes cover every read of the scan, the result
    of [nj_minq_cy] is decided by the number [n] of rows of [dm], the
    entries [dm[i, j]] with [i < j < n] and the first [n] entries of
    [sums]: two calls whose buffers agree on these return the same pair
    [i < j < n], or each returns what its own never-assigned locals held.
    The columns from [n] on, the diagonal, the lower triangle and the
    entries of [sums] from [n] on are never consulted. *)
Theorem nj_minq_cy_footprint {F : Type} `{Floating F} g g' (mv1 mv2 : memviews F) :
  in_bounds mv1 ->
  length (dm mv1) = length (dm mv2) ->
  (forall i, i < length (dm mv1) -> nth_error (sums mv1) i = nth_error (sums mv2) i) ->
  (forall i j, i < j < length (dm mv1) -> entry (dm mv1) i j = entry (dm mv2) i j) ->
  (exists i j, i < j < length (dm mv1) /\
     nj_minq_cy g mv1 = Returns ((Z.of_nat i, Z.of_nat j), mv1) /\
     nj_minq_cy g' mv2 = Returns ((Z.of_nat i, Z.of_nat j), mv2)) \/
  (nj_minq_cy g mv1 = Returns (g, mv1) /\ nj_minq_cy g' mv2 = Returns (g', mv2)).
Proof.
  intros Hb Hrows Hsums Hupper.
  exact (nj_minq_cy_in_bounds_agree g g' mv1 mv2 Hb Hrows Hsums Hupper).
Qed.

Lemma nj_minq_cy_footprint_witness :
  (exists i j, i < j < 3 /\
     nj_minq_cy (-1, -1)%Z (MemViews three_taxa_f64 three_taxa_sums_f64) =
       Returns ((Z.of_nat i, Z.of_nat j), MemViews three_taxa_f64 three_taxa_sums_f64) /\
     nj_minq_cy (7, 5)%Z (MemViews three_by_four_f64 four_sums_f64) =
       Returns ((Z.of_nat i, Z.of_nat j), MemViews three_by_four_f64 four_sums_f64)) \/
  (nj_minq_cy (-1, -1)%Z (MemViews three_taxa_f64 three_taxa_sums_f64) =
     Returns ((-1, -1)%Z, MemViews three_taxa_f64 three_taxa_sums_f64) /\
   nj_minq_cy (7, 5)%Z (MemViews three_by_four_f64 four_sums_f64) =
     Returns ((7, 5)%Z, MemViews three_by_four_f64 four_sums_f64)).
Proof.
  apply (nj_minq_cy_footprint (-1, -1)%Z (7, 5)%Z
           (MemViews three_taxa_f64 three_taxa_sums_f64)
           (MemViews three_by_four_f64 four_sums_f64)).
  - exact in_bounds_three_taxa_f64.
  - reflexivity.
  - intros i Hi. cbn [dm length three_taxa_f64 map] in Hi.
    destruct i as [|[|[|i]]]; try lia; reflexivity.
  - intros i j Hij. cbn [dm length three_taxa_f64 map] in Hij.
    destruct i as [|[|i]]; destruct j as [|[|[|j]]]; try lia; reflexivity.
Defined.

(** ** When the first candidate is finite *)

(** X4: in binary32 and in binary64, on buffers the scan stays inside of
    and with at least two rows, as soon as [sums[0]] is finite and the
    first candidate's [q_plus = dm[0, 1] * n_2 - sums[1]] is finite, the
    call returns a pair [i < j < n] that does not depend on what the
    locals [min_i], [min_j] held: the first comparison always succeeds
    against the initial [INFINITY]. *)
Theorem nj_minq_cy_first_candidate_finite :
  (forall (mv : memviews c_float) d01 s0 s1,
      in_bounds mv -> 2 <= length (dm mv) ->
      entry (dm mv) 0 1 = Some d01 ->
      nth_error (sums mv) 0 = Some s0 -> nth_error (sums mv) 1 = Some s1 ->
      float_finite s0 ->
      float_finite (F_sub (F_mul d01 (F_n_minus_2 (length (dm mv)))) s1) ->
      exists i j, i < j < length (dm mv) /\
        forall g, nj_minq_cy g mv = Returns ((Z.of_nat i, Z.of_nat j), mv)) /\
  (forall (mv : memviews c_double) d01 s0 s1,
      in_bounds mv -> 2 <= length (dm mv) ->
      entry (dm mv) 0 1 = Some d01 ->
      nth_error (sums mv) 0 = Some s0 -> nth_error (sums mv) 1 = Some s1 ->
      double_finite s0 ->
      double_finite (F_sub (F_mul d01 (F_n_minus_2 (length (dm mv)))) s1) ->
      exists i j, i < j < length (dm mv) /\
        forall g, nj_minq_cy g mv = Returns ((Z.of_nat i, Z.of_nat j), mv)).
Proof.
  split; intros mv d01 s0 s1.
  - apply (nj_minq_cy_first_candidate_any float_finite float_zero).
  - apply (nj_minq_cy_first_candidate_any double_finite double_zero).
Qed.

Lemma nj_minq_cy_first_candidate_finite_witness :
  exists i j, i < j < 3 /\
    forall g, nj_minq_cy g (MemViews three_taxa_f64 three_taxa_sums_f64) =
              Returns ((Z.of_nat i, Z.of_nat j), MemViews three_taxa_f64 three_taxa_sums_f64).
Proof.
  apply (proj2 nj_minq_cy_first_candidate_finite
           (MemViews three_taxa_f64 three_taxa_sums_f64)
           (Double.lit 5 0) (Double.lit 14 0) (Double.lit 15 0)).
  - exact in_bounds_three_taxa_f64.
  - simpl. lia.
  - reflexivity.
  - reflexivity.
  - reflexivity.
  - reflexivity.
  - reflexivity.
Defined.

(** ** Data on which no comparison succeeds *)

(** X5: in binary32 and in binary64, when at every pair [i < j < n] the
    distance [dm[i, j]] or the sum [sums[j]] is NaN, every comparison
    [q_plus < min_q_plus] is false: the call raises nothing and returns
    [min_i], [min_j] as they were before the call, never assigned. *)
Theorem nj_minq_cy_nan_data :
  (forall (mv : memviews c_float),
      in_bounds mv ->
      (forall i j x y, i < j < length (dm mv) ->
         entry (dm mv) i j = Some x -> nth_error (sums mv) j = Some y ->
         float_nan x \/ float_nan y) ->
      forall g, nj_minq_cy g mv = Returns (g, mv)) /\
  (forall (mv : memviews c_double),
      in_bounds mv ->
      (forall i j x y, i < j < length (dm mv) ->
         entry (dm mv) i j = Some x -> nth_error (sums mv) j = Some y ->
         double_nan x \/ double_nan y) ->
      forall g, nj_minq_cy g mv = Returns (g, mv)).
Proof.
  split; intros mv Hb Hnan; apply (nj_minq_cy_no_candidate mv Hb);
    intros i j x y Hij Ex Ey z; specialize (Hnan i j x y Hij Ex Ey).
  - cbn [F_lt F_sub F_mul Floating_float lift32 float_bits].
    now apply SF_nan_candidate.
  - cbn [F_lt F_sub F_mul Floating_double lift64 double_bits].
    now apply SF_nan_candidate.
Qed.

Lemma nj_minq_cy_nan_data_witness :
  nj_minq_cy (7, 5)%Z (MemViews three_taxa_f64 nan_sums_f64) =
  Returns ((7, 5)%Z, MemViews three_taxa_f64 nan_sums_f64).
Proof.
  apply (proj2 nj_minq_cy_nan_data (MemViews three_taxa_f64 nan_sums_f64)).
  - split; [simpl; lia|].
    intros i j Hij. cbn [dm length three_taxa_f64 map] in Hij.
    destruct i as [|[|i]]; destruct j as [|[|[|j]]]; try lia; discriminate.
  - intros i j x y Hij Ex Ey. right.
    cbn [dm sums length three_taxa_f64 map] in Hij, Ey.
    destruct j as [|[|[|j]]]; try lia; injection Ey as <-; reflexivity.
Defined.

(** ** Exact arithmetic: a change of unit and origin *)

Lemma Qltb_affine k e q1 p1 q2 p2 :
  (0 < k)%Q -> (q2 == k * q1 + e)%Q -> (p2 == k * p1 + e)%Q ->
  Exact.Qltb q1 p1 = Exact.Qltb q2 p2.
Proof.
  intros Hk Hq Hp.
  destruct (Exact.Qltb q1 p1) eqn:E1, (Exact.Qltb q2 p2) eqn:E2; try reflexivity.
  - apply Qltb_true in E1. apply Qltb_false in E2. exfalso.
    assert (Hm : (k * q1 < k * p1)%Q) by (apply Qmult_lt_l; assumption).
    lra.
  - apply Qltb_false in E1. apply Qltb_true in E2. exfalso.
    assert (Hm : (k * p1 <= k * q1)%Q) by (apply Qmult_le_l; assumption).
    lra.
Qed.

Section Affine.

Variable dmq : list (list Q).
Variable sq : list Q.
Variables k c t : Q.
Hypothesis Hk : (0 < k)%Q.

Lemma affine_load_dm i j :
  rel_run (fun a b => exists q, a = Finite q /\ b = Finite (k * q + c))
          (exact_views dmq sq) (exact_views (affine_dm k c dmq) (affine_sums k t sq))
          (load_dm i j) (load_dm i j).
Proof.
  unfold rel_run, load_dm, exact_views, affine_dm. cbn [dm].
  rewrite !entry_map. destruct (entry dmq i j) as [q|]; simpl; eauto.
Qed.

Lemma affine_load_sums i :
  rel_run (fun a b => exists q, a = Finite q /\ b = Finite (k * q + t))
          (exact_views dmq sq) (exact_views (affine_dm k c dmq) (affine_sums k t sq))
          (load_sums i) (load_sums i).
Proof.
  unfold rel_run, load_sums, exact_views, affine_sums. cbn [sums].
  rewrite !nth_error_map. destruct (nth_error sq i) as [q|]; simpl; eauto.
Qed.

Lemma affine_inner_body n i j st1 st2 :
  scaled_state k c t (inject_Z (Z.of_nat n - 2)) st1 st2 ->
  rel_run (scaled_state k c t (inject_Z (Z.of_nat n - 2)))
          (exact_views dmq sq) (exact_views (affine_dm k c dmq) (affine_sums k t sq))
          (inner_body (F_n_minus_2 n) i st1 j) (inner_body (F_n_minus_2 n) i st2 j).
Proof.
  intros (Hplus & Hm). unfold inner_body, min_q_plus.
  eapply rel_run_bind; [apply affine_load_dm|]. intros ? ? (x & -> & ->).
  eapply rel_run_bind; [apply affine_load_sums|]. intros ? ? (s_j & -> & ->).
  cbn [F_lt F_sub F_mul F_n_minus_2 Floating_exact
       Exact.sub Exact.mul Exact.add Exact.opp].
  assert (Hcmp : Exact.lt (Finite (x * inject_Z (Z.of_nat n - 2) + - s_j)) (fst st1) =
                 Exact.lt (Finite ((k * x + c) * inject_Z (Z.of_nat n - 2) + - (k * s_j + t)))
                          (fst st2)).
  { unfold scaled in Hplus.
    destruct (fst st1) as [p1| | |], (fst st2) as [p2| | |]; try contradiction.
    - cbn [Exact.lt].
      apply Qltb_affine with (k := k) (e := (c * inject_Z (Z.of_nat n - 2) - t)%Q);
        [exact Hk|ring|exact Hplus].
    - reflexivity. }
  rewrite <- Hcmp. destruct (Exact.lt _ (fst st1)).
  - eapply rel_run_bind; [apply affine_load_sums|]. intros ? ? (s_i & -> & ->).
    apply rel_run_ret. split; [|split; [|split; reflexivity]]; cbn; ring.
  - apply rel_run_ret. split; assumption.
Qed.

Lemma affine_outer_body n i m1 m2 :
  scaled_minimum k c t (inject_Z (Z.of_nat n - 2)) m1 m2 ->
  rel_run (scaled_minimum k c t (inject_Z (Z.of_nat n - 2)))
          (exact_views dmq sq) (exact_views (affine_dm k c dmq) (affine_sums k t sq))
          (outer_body n (F_n_minus_2 n) m1 i) (outer_body n (F_n_minus_2 n) m2 i).
Proof.
  intros Hm. unfold outer_body.
  eapply rel_run_bind; [apply affine_load_sums|]. intros ? ? (s_i & -> & ->).
  eapply rel_run_bind.
  - apply rel_run_for_each with (R := scaled_state k c t (inject_Z (Z.of_nat n - 2))).
    + intros st1 st2 j _ Hst. now apply affine_inner_body.
    + split; [|exact Hm]. cbn [fst F_add Floating_exact].
      destruct Hm as (Hq & _). unfold scaled in *.
      destruct (min_q m1) as [q1| | |], (min_q m2) as [q2| | |]; try contradiction.
      * cbn. rewrite Hq. ring.
      * exact I.
  - intros st1 st2 (_ & Hm'). apply rel_run_ret. exact Hm'.
Qed.

Lemma affine_nj_minq_cy g :
  value_of (nj_minq_cy g (exact_views (affine_dm k c dmq) (affine_sums k t sq))) =
  value_of (nj_minq_cy g (exact_views dmq sq)).
Proof.
  assert (Hrel : rel_run eq (exact_views dmq sq)
                   (exact_views (affine_dm k c dmq) (affine_sums k t sq))
                   (nj_minq_cy g) (nj_minq_cy g)).
  { unfold nj_minq_cy.
    eapply rel_run_bind with (R := eq).
    - unfold rel_run, shape0, exact_views, affine_dm. cbn [dm].
      rewrite !length_map. auto.
    - intros n ? <-. eapply rel_run_bind.
      + apply rel_run_for_each
          with (R := scaled_minimum k c t (inject_Z (Z.of_nat n - 2))).
        * intros m1 m2 i _ Hm. now apply affine_outer_body.
        * repeat split.
      + intros m1 m2 (_ & Hi & Hj). apply rel_run_ret. now rewrite Hi, Hj. }
  apply rel_run_value_of in Hrel.
  destruct Hrel as [(E1 & E2) | (a1 & a2 & <- & E1 & E2)]; now rewrite E1, E2.
Qed.

End Affine.

(** X6: in exact arithmetic, on an [n x n] matrix with [n >= 2] and [n]
    sums, the pair [nj_minq_cy] returns does not change when every
    distance [d] is replaced by [k * d + c] and every sum [s] by
    [k * s + t] with [k > 0]: the selection does not depend on the unit or
    on the origin of the distances. *)
Theorem nj_minq_cy_exact_affine_invariant n dmq sq k c t g g' :
  2 <= n -> square n dmq -> length sq = n -> (0 < k)%Q ->
  value_of (nj_minq_cy g (exact_views (affine_dm k c dmq) (affine_sums k t sq))) =
  value_of (nj_minq_cy g' (exact_views dmq sq)).
Proof.
  intros Hn Hsq Hlen Hk.
  rewrite (affine_nj_minq_cy dmq sq k c t Hk g).
  rewrite (nj_minq_cy_exact_assigned n dmq sq g g' Hn Hsq); [reflexivity|lia].
Qed.

Lemma nj_minq_cy_exact_affine_invariant_witness :
  value_of (nj_minq_cy (-1, -1)%Z
              (exact_views (affine_dm (3 # 2) (1 # 4) three_taxa_dm)
                           (affine_sums (3 # 2) (1 # 2) three_taxa_sums))) =
  value_of (nj_minq_cy (0, 0)%Z (exact_views three_taxa_dm three_taxa_sums)).
Proof.
  apply (nj_minq_cy_exact_affine_invariant 3 three_taxa_dm three_taxa_sums
           (3 # 2) (1 # 4) (1 # 2) (-1, -1)%Z (0, 0)%Z).
  - lia.
  - exact square_three_taxa.
  - reflexivity.
  - reflexivity.
Defined.

(** ** Exact arithmetic: three nodes *)

(** X7: in exact arithmetic, on three nodes with a symmetric zero-diagonal
    matrix and [sums] equal to its row sums, the three values of [Q]
    coincide and [nj_minq_cy] returns the first pair scanned, [(0, 1)],
    whatever the distances are. *)
Theorem nj_minq_cy_exact_three_nodes dmq sq g :
  square 3 dmq -> length sq = 3 -> three_nodes_consistent dmq sq ->
  nj_minq_cy g (exact_views dmq sq) = Returns ((0, 1)%Z, exact_views dmq sq).
Proof.
  intros Hsq Hlen (Hsym & Hdiag & Hrow).
  destruct (nj_minq_cy_exact_first_least 3 dmq sq g) as (i & j & E & Hij & Hmin);
    [lia|exact Hsq|lia|].
  assert (Hq : forall a b, a < b < 3 ->
                 (Qcrit 3 dmq sq a b == Qcrit 3 dmq sq 0 1)%Q).
  { intros a b Hab. unfold Qcrit.
    pose proof (Hrow 0 ltac:(lia)) as R0. pose proof (Hrow 1 ltac:(lia)) as R1.
    pose proof (Hrow 2 ltac:(lia)) as R2.
    pose proof (Hdiag 0 ltac:(lia)) as D0. pose proof (Hdiag 1 ltac:(lia)) as D1.
    pose proof (Hdiag 2 ltac:(lia)) as D2.
    pose proof (Hsym 1 0 ltac:(lia) ltac:(lia)) as S10.
    pose proof (Hsym 2 0 ltac:(lia) ltac:(lia)) as S20.
    pose proof (Hsym 2 1 ltac:(lia) ltac:(lia)) as S21.
    change (inject_Z (Z.of_nat 3 - 2)) with 1%Q.
    destruct a as [|[|a]]; destruct b as [|[|[|b]]]; try lia; lra. }
  destruct (Hmin 0 1 ltac:(lia)) as (_ & Hstrict).
  assert (Hfirst : i = 0 /\ j = 1).
  { destruct (Nat.eq_dec i 0) as [-> | Hi0].
    - destruct (Nat.eq_dec j 1) as [-> | Hj1]; [auto|].
      exfalso. assert (Hb : before 0 1 0 j) by (unfold before; lia).
      specialize (Hstrict Hb). rewrite (Hq 0 j) in Hstrict by lia.
      exact (Qlt_irrefl _ Hstrict).
    - exfalso. assert (Hb : before 0 1 i j) by (unfold before; lia).
      specialize (Hstrict Hb). rewrite (Hq i j) in Hstrict by lia.
      exact (Qlt_irrefl _ Hstrict). }
  destruct Hfirst as (-> & ->). exact E.
Qed.

Lemma nj_minq_cy_exact_three_nodes_witness :
  nj_minq_cy (-1, -1)%Z (exact_views three_taxa_dm three_taxa_sums) =
  Returns ((0, 1)%Z, exact_views three_taxa_dm three_taxa_sums).
Proof.
  apply (nj_minq_cy_exact_three_nodes three_taxa_dm three_taxa_sums (-1, -1)%Z).
  - exact square_three_taxa.
  - reflexivity.
  - split; [|split].
    + intros i j Hi Hj.
      destruct i as [|[|[|i]]]; destruct j as [|[|[|j]]]; try lia; reflexivity.
    + intros i Hi. destruct i as [|[|[|i]]]; try lia; reflexivity.
    + intros i Hi. destruct i as [|[|[|i]]]; try lia; reflexivity.
Defined.
